(** * Connection-pool database wrappers

    A shallow embedding of the two Django database wrappers of the
    repository:

    - [utils/database_wrapper/base.py]  (module [Base] below), built on
      [psycopg_pool.ConnectionPool];
    - [utils/database_wrapper.py]       (module [Simple] below), built on
      [psycopg2.pool.ThreadedConnectionPool].

    Both classes are glue code around collaborators that live outside the
    repository (the Django PostgreSQL backend, the pool libraries, the
    clock, [time.sleep], [logging]).  Those collaborators are kept opaque:
    they are the fields of an [External] record, each a transition on an
    abstract state that may return normally or raise.  Every call the
    wrappers make to a collaborator is appended to a trace together with
    its outcome, so that statements such as "exactly one replacement
    acquisition" are statements about the trace.

    Python numbers (ints and floats alike) are rationals; timestamps are
    rationals counting seconds.  The class-level lock is not modelled: the
    methods are embedded as sequential state transformers.  [logging] calls
    return normally, pool and connection objects are truthy, and only
    exceptions below [Exception] are raised. *)

From Stdlib Require Import QArith ZArith Lia Sorted.
From stdpp Require Import base option list strings gmap.

Set Default Proof Using "Type".
Open Scope string_scope.

(** ** Python values, exceptions, results *)

Inductive Value : Type :=
| VNone
| VBool (b : bool)
| VNum (q : Q)
| VStr (s : string)
| VTime (t : Q).

(** An exception is its class name and [str(e)]. Only subclasses of
    [Exception] are modelled. *)
Record Exn : Type := mkExn { exn_type : string; str : string }.

Definition KeyError (key : string) : Exn := mkExn "KeyError" ("'" ++ key ++ "'").
Definition TypeError (msg : string) : Exn := mkExn "TypeError" msg.
Definition AttributeError (msg : string) : Exn := mkExn "AttributeError" msg.
Definition ImproperlyConfigured (msg : string) : Exn := mkExn "ImproperlyConfigured" msg.

Inductive result (A : Type) : Type :=
| Ok (a : A)
| Raise (e : Exn).
Arguments Ok {A} a.
Arguments Raise {A} e.

(** [needle in hay] on Python strings. *)
Fixpoint py_in (needle hay : string) : bool :=
  String.prefix needle hay ||
  match hay with
  | EmptyString => false
  | String _ rest => py_in needle rest
  end.

Definition too_many_clients : string := "too many clients already".

(** The test [[ "too many clients already" in str(e) ]]. *)
Definition transient (e : Exn) : bool := py_in too_many_clients (str e).

(** ** Handles and arguments of the collaborators *)

Definition Conn := nat.
Definition PoolRef := nat.
Definition Alias := option string.
Abbreviation Kwargs := (gmap string Value).

(** [django.db.backends.base.base.NO_DB_ALIAS] *)
Definition NO_DB_ALIAS : Alias := Some "__no_db__".

(** [KeyError(alias)]; [str] of it is the [repr] of the key. *)
Definition KeyError_alias (alias : Alias) : Exn :=
  match alias with
  | Some s => KeyError s
  | None => mkExn "KeyError" "None"
  end.

(** The value of [settings_dict["OPTIONS"].get("pool")]. *)
Inductive PoolOption : Type :=
| PoolUnset
| PoolFlag (b : bool)
| PoolDict (options : Kwargs).

(** Keyword arguments handed to a pool constructor. *)
Record PoolArgs : Type := mkPoolArgs {
  pa_kwargs : Kwargs;
  pa_min_size : Q;
  pa_max_size : Q;
  pa_max_overflow : option Q;
  pa_timeout : option Q;
  pa_check : bool;
  pa_reset : bool;
  pa_extra : Kwargs
}.

Inductive LogLevel : Type := INFO | WARNING | ERROR.

Inductive LogMsg : Type :=
| MonitorError (e : Exn)
| NearingCapacity (alias : Alias)
| ResizeFailed (alias : Alias) (e : Exn)
| MaxAgeReached (alias : Alias)
| CloseAgedFailed (alias : Alias) (e : Exn)
| TooManyNoPool (e : Exn) (retry_count max_retries : nat)
| ReturnFailed (e : Exn)
| CleanupFailed (e : Exn)
| ClosePoolFailed (alias : Alias) (e : Exn)
| ResizeError (e : Exn).

(** One entry of the trace: a call to a collaborator and how it ended. *)
Inductive Event : Type :=
| EvConnect (params : Kwargs) (r : result Conn)
| EvParams (r : result Kwargs)
| EvPoolNew (args : PoolArgs) (r : result PoolRef)
| EvGetconn (p : PoolRef) (r : result Conn)
| EvPutconn (p : PoolRef) (c : Conn) (close : bool) (r : result unit)
| EvPoolClose (p : PoolRef) (r : result unit)
| EvResize (p : PoolRef) (target : Value) (r : result unit)
| EvAttr (p : PoolRef) (name : string) (r : result Q)
| EvClosed (c : Conn) (r : option bool)
| EvConnClose (c : Conn) (r : result unit)
| EvProbe (c : Conn) (r : result unit)
| EvBaseClose (r : result unit)
| EvNow (t : Q)
| EvSleep (seconds : Q)
| EvThreadStart
| EvLog (level : LogLevel) (msg : LogMsg).

(** ** The collaborators *)

Record External : Type := {
  Ext : Type;
  (** [PostgresDatabaseWrapper.get_new_connection(conn_params)] *)
  raw_connect : Kwargs -> Ext -> result Conn * Ext;
  (** [self.get_connection_params()] for the wrapper of an alias *)
  connection_params : Alias -> Ext -> result Kwargs * Ext;
  (** [from psycopg_pool import ConnectionPool] succeeds *)
  psycopg_pool_installed : Ext -> bool;
  (** the pool constructor *)
  new_pool : PoolArgs -> Ext -> result PoolRef * Ext;
  getconn : PoolRef -> Ext -> result Conn * Ext;
  putconn : PoolRef -> Conn -> bool -> Ext -> result unit * Ext;
  pool_close : PoolRef -> Ext -> result unit * Ext;
  resize : PoolRef -> Value -> Ext -> result unit * Ext;
  (** reading a numeric attribute of a pool ([busy], [size], ...) *)
  pool_attr : PoolRef -> string -> Ext -> result Q;
  (** reading [conn.closed]; [None] when the attribute does not exist *)
  conn_closed : Conn -> Ext -> option bool;
  conn_close : Conn -> Ext -> result unit * Ext;
  (** [with conn.cursor() as cursor: cursor.execute("SELECT 1")] *)
  select_1 : Conn -> Ext -> result unit * Ext;
  (** [PostgresDatabaseWrapper.close()]: outcome and the new value of
      [self.connection] *)
  base_close : option Conn -> Ext -> result unit * option Conn * Ext;
  (** [datetime.now()] *)
  clock : Ext -> Q * Ext;
  (** [time.sleep(seconds)] *)
  sleep : Q -> Ext -> Ext
}.

(** ** Worlds and the method monad *)

(** A world is the state of the collaborators, the trace of the calls made
    to them so far, and the class-level attributes of a wrapper class. *)
Record World (E : External) (C : Type) : Type := mkWorld {
  ext : Ext E;
  trace : list Event;
  cls : C
}.
Arguments mkWorld {E C} ext trace cls.
Arguments ext {E C} w.
Arguments trace {E C} w.
Arguments cls {E C} w.

(** A method body: it runs in a world, ends normally or by raising, and
    leaves a world behind in both cases. *)
Definition M (E : External) (C A : Type) : Type :=
  World E C -> result A * World E C.

Section Monad.
Context {E : External} {C : Type}.

Definition ret {A} (a : A) : M E C A := fun w => (Ok a, w).

Definition raise {A} (e : Exn) : M E C A := fun w => (Raise e, w).

Definition bind {A B} (m : M E C A) (k : A -> M E C B) : M E C B :=
  fun w =>
    match m w with
    | (Ok a, w') => k a w'
    | (Raise e, w') => (Raise e, w')
    end.

(** [try: body / except Exception as e: handler e] *)
Definition try_except {A} (body : M E C A) (handler : Exn -> M E C A) : M E C A :=
  fun w =>
    match body w with
    | (Ok a, w') => (Ok a, w')
    | (Raise e, w') => handler e w'
    end.

Definition emit (ev : Event) (w : World E C) : World E C :=
  mkWorld (ext w) (trace w ++ [ev]) (cls w).

(** A call that changes the collaborators' state and may raise. *)
Definition call {A} (f : Ext E -> result A * Ext E) (ev : result A -> Event) : M E C A :=
  fun w =>
    let '(r, s) := f (ext w) in
    (r, mkWorld s (trace w ++ [ev r]) (cls w)).

(** Reading an attribute of a collaborator's object. *)
Definition read {A} (f : Ext E -> result A) (ev : result A -> Event) : M E C A :=
  fun w => let r := f (ext w) in (r, emit (ev r) w).

Definition get_cls : M E C C := fun w => (Ok (cls w), w).

Definition modify_cls (f : C -> C) : M E C unit :=
  fun w => (Ok tt, mkWorld (ext w) (trace w) (f (cls w))).

Definition logging (level : LogLevel) (msg : LogMsg) : M E C unit :=
  fun w => (Ok tt, emit (EvLog level msg) w).

Definition time_sleep (seconds : Q) : M E C unit :=
  fun w => (Ok tt, mkWorld (sleep E seconds (ext w)) (trace w ++ [EvSleep seconds]) (cls w)).

Definition datetime_now : M E C Q :=
  fun w =>
    let '(t, s) := clock E (ext w) in
    (Ok t, mkWorld s (trace w ++ [EvNow t]) (cls w)).

Definition super_get_new_connection (conn_params : Kwargs) : M E C Conn :=
  call (raw_connect E conn_params) (EvConnect conn_params).

(** Constructing a pool object *)
Definition ConnectionPool (args : PoolArgs) : M E C PoolRef :=
  call (new_pool E args) (EvPoolNew args).

Definition pool_getconn (p : PoolRef) : M E C Conn :=
  call (getconn E p) (EvGetconn p).

Definition pool_putconn (p : PoolRef) (c : Conn) (close : bool) : M E C unit :=
  call (putconn E p c close) (EvPutconn p c close).

Definition pool_close_all (p : PoolRef) : M E C unit :=
  call (pool_close E p) (EvPoolClose p).

Definition pool_resize (p : PoolRef) (target : Value) : M E C unit :=
  call (resize E p target) (EvResize p target).

Definition pool_read (p : PoolRef) (name : string) : M E C Q :=
  read (pool_attr E p name) (EvAttr p name).

(** [conn.closed]: raises [AttributeError] when the attribute is missing. *)
Definition connection_closed (c : Conn) : M E C bool :=
  fun w =>
    let r := conn_closed E c (ext w) in
    (match r with
     | Some b => Ok b
     | None => Raise (AttributeError "closed")
     end, emit (EvClosed c r) w).

(** [hasattr(conn, 'closed')] *)
Definition hasattr_closed (c : Conn) : M E C bool :=
  fun w =>
    let r := conn_closed E c (ext w) in
    (Ok (bool_decide (is_Some r)), emit (EvClosed c r) w).

Definition connection_close (c : Conn) : M E C unit :=
  call (conn_close E c) (EvConnClose c).

Definition cursor_execute_select_1 (c : Conn) : M E C unit :=
  call (select_1 E c) (EvProbe c).
End Monad.

Declare Scope py_scope.
Delimit Scope py_scope with py.
Notation "x <- c1 ;; c2" := (bind c1 (fun x => c2))
  (at level 100, c1 at next level, right associativity) : py_scope.
Notation "c1 ;; c2" := (bind c1 (fun _ => c2))
  (at level 100, right associativity) : py_scope.
Open Scope py_scope.

(** ** Python dictionaries that are iterated: insertion-ordered *)

Section Dict.
Context {K V : Type} `{EqDecision K}.

Fixpoint dict_get (d : list (K * V)) (k : K) : option V :=
  match d with
  | [] => None
  | (k', v) :: rest => if decide (k' = k) then Some v else dict_get rest k
  end.

(** [d[k] = v]: an existing key keeps its position, a new key goes last. *)
Fixpoint dict_set (d : list (K * V)) (k : K) (v : V) : list (K * V) :=
  match d with
  | [] => [(k, v)]
  | (k', v') :: rest =>
      if decide (k' = k) then (k, v) :: rest else (k', v') :: dict_set rest k v
  end.
End Dict.

(** ** Python arithmetic on the values the wrappers compute with *)

Definition Qgtb (a b : Q) : bool := negb (Qle_bool a b).

Definition as_number (v : Value) : option Q :=
  match v with
  | VNum q => Some q
  | VBool true => Some 1%Q
  | VBool false => Some 0%Q
  | _ => None
  end.

Section Arith.
Context {E : External} {C : Type}.

(** [d[key]] on a [dict] with string keys *)
Definition getitem (d : gmap string Value) (key : string) : M E C Value :=
  match d !! key with
  | Some v => ret v
  | None => raise (KeyError key)
  end.

(** [a * b], as far as it can take part in a comparison with a number *)
Definition py_mul (a b : Value) : M E C Q :=
  match as_number a, as_number b with
  | Some x, Some y => ret (x * y)%Q
  | _, _ => raise (TypeError "unsupported operand type(s) for *")
  end.

(** [now - created_at] for a [datetime] [now]: the seconds of the
    resulting [timedelta] *)
Definition datetime_sub (now : Q) (created_at : Value) : M E C Q :=
  match created_at with
  | VTime t => ret (now - t)%Q
  | _ => raise (TypeError "unsupported operand type(s) for -")
  end.

(** [timedelta(seconds=v)], in seconds *)
Definition timedelta_seconds (v : Value) : M E C Q :=
  match as_number v with
  | Some s => ret s
  | None => raise (TypeError "unsupported type for timedelta seconds component")
  end.

(** [for x in l: body x] *)
Fixpoint for_each {A} (l : list A) (body : A -> M E C unit) : M E C unit :=
  match l with
  | [] => ret tt
  | x :: rest => body x ;; for_each rest body
  end.
End Arith.

(** * [utils/database_wrapper/base.py] *)

Module Base.

(** The keys of [settings_dict] the wrapper reads; [None] is an absent key. *)
Record SettingsDict : Type := {
  MIN_CONNECTIONS : option Q;
  MAX_CONNECTIONS : option Q;
  MAX_OVERFLOW : option Q;
  POOL_TIMEOUT : option Q;
  POOL_MAX_CONN_AGE : option Q;
  POOL_RECYCLE_THRESHOLD : option Q;
  CONN_MAX_AGE : option Value;
  CONN_HEALTH_CHECKS : option bool;
  OPTIONS_pool : PoolOption
}.

(** The instance attributes of a [DatabaseWrapper] that [__init__] sets and
    nothing changes afterwards. The one attribute the class assigns later,
    [self.connection], is part of the state of [close] instead. *)
Record Wrapper : Type := mkWrapper {
  settings_dict : SettingsDict;
  alias : Alias;
  min_connections : Q;
  max_connections : Q;
  max_overflow : Q;
  timeout : Q;
  max_conn_age : Q;
  recycle_threshold : Q
}.

(** The class attributes of [DatabaseWrapper]. [_pool_monitor] is [true]
    once the monitor thread object has been stored. *)
Record Class : Type := mkClass {
  _connection_pools : gmap Alias PoolRef;
  _pool_settings : list (Alias * gmap string Value);
  _pool_monitor : bool
}.

Definition empty_class : Class := mkClass ∅ [] false.

Definition set_connection_pools (f : gmap Alias PoolRef -> gmap Alias PoolRef) (c : Class) : Class :=
  mkClass (f (_connection_pools c)) (_pool_settings c) (_pool_monitor c).

Definition set_pool_settings (f : list (Alias * gmap string Value) -> list (Alias * gmap string Value))
    (c : Class) : Class :=
  mkClass (_connection_pools c) (f (_pool_settings c)) (_pool_monitor c).

Definition set_pool_monitor (b : bool) (c : Class) : Class :=
  mkClass (_connection_pools c) (_pool_settings c) b.

(** Truth value of [alias] *)
Definition alias_truthy (a : Alias) : bool :=
  match a with
  | None => false
  | Some s => negb (String.eqb s "")
  end.

(** Truth value of the [pool] option *)
Definition pool_options_truthy (o : PoolOption) : bool :=
  match o with
  | PoolUnset => false
  | PoolFlag b => b
  | PoolDict d => negb (bool_decide (d = ∅))
  end.

(** [x != 0] *)
Definition py_ne_zero (v : Value) : bool :=
  match as_number v with
  | Some q => negb (Qeq_bool q 0)
  | None => true
  end.

Section Methods.
Context {E : External}.
Abbreviation Method := (M E Class).

(** [_start_pool_monitor]: the thread object is stored and started; its
    body is [monitor_pools] below. *)
Definition _start_pool_monitor : Method unit :=
  modify_cls (set_pool_monitor true) ;;
  fun w => (Ok tt, emit EvThreadStart w).

Definition __init__ (settings_dict : SettingsDict) (alias : Alias) : Method Wrapper :=
  let self :=
    {| settings_dict := settings_dict;
       alias := alias;
       min_connections := default 20%Q (MIN_CONNECTIONS settings_dict);
       max_connections := default 100%Q (MAX_CONNECTIONS settings_dict);
       max_overflow := default 10%Q (MAX_OVERFLOW settings_dict);
       timeout := default 3000%Q (POOL_TIMEOUT settings_dict);
       max_conn_age := default 1800%Q (POOL_MAX_CONN_AGE settings_dict);
       recycle_threshold := default (8 # 10)%Q (POOL_RECYCLE_THRESHOLD settings_dict) |} in
  (if alias_truthy alias && negb (bool_decide (alias = NO_DB_ALIAS)) then
     now <- datetime_now ;;
     modify_cls (set_pool_settings (fun d =>
       dict_set d alias
         (<["created_at" := VTime now]>
          (<["timeout" := VNum (timeout self)]>
           (<["max_overflow" := VNum (max_overflow self)]>
            (<["max_connections" := VNum (max_connections self)]>
             (<["min_connections" := VNum (min_connections self)]> ∅))))))) ;;
     c <- get_cls ;;
     if _pool_monitor c then ret tt else _start_pool_monitor
   else ret tt) ;;
  ret self.

(** The [try] block of the capacity check, with its [except]. *)
Definition try_resize (alias : Alias) (pool : PoolRef) (settings : gmap string Value) : Method unit :=
  try_except
    (target <- getitem settings "min_connections" ;;
     pool_resize pool target)
    (fun e => logging ERROR (ResizeFailed alias e)).

(** The [try] block of the age check, with its [except]. *)
Definition try_close (alias : Alias) (pool : PoolRef) : Method unit :=
  try_except
    (pool_close_all pool ;;
     (* del cls._connection_pools[alias] *)
     c <- get_cls ;;
     match _connection_pools c !! alias with
     | Some _ => modify_cls (set_connection_pools (delete alias))
     | None => raise (KeyError_alias alias)
     end)
    (fun e => logging ERROR (CloseAgedFailed alias e)).

(** The body of [for alias, settings in cls._pool_settings.items()]. *)
Definition check_pool (now : Q) (alias : Alias) (settings : gmap string Value) : Method unit :=
  c <- get_cls ;;
  match _connection_pools c !! alias with
  | None => ret tt
  | Some pool =>
      (* Check if pool is overloaded *)
      busy <- pool_read pool "busy" ;;
      max_connections <- getitem settings "max_connections" ;;
      c <- get_cls ;;
      alias_settings <- match dict_get (_pool_settings c) alias with
                        | Some d => ret d
                        | None => raise (KeyError_alias alias)
                        end ;;
      recycle_threshold <- getitem alias_settings "recycle_threshold" ;;
      limit <- py_mul max_connections recycle_threshold ;;
      (if Qgtb busy limit then
         logging WARNING (NearingCapacity alias) ;;
         try_resize alias pool settings
       else ret tt) ;;
      (* Check pool age *)
      age <- datetime_sub now (default (VTime now) (settings !! "created_at")) ;;
      max_age <- timedelta_seconds (default (VNum 1800) (settings !! "max_conn_age")) ;;
      if Qgtb age max_age then
        logging INFO (MaxAgeReached alias) ;;
        try_close alias pool
      else ret tt
  end.

Definition _check_all_pools : Method unit :=
  now <- datetime_now ;;
  c <- get_cls ;;
  for_each (_pool_settings c) (fun '(alias, settings) => check_pool now alias settings).



(** [from psycopg_pool import ConnectionPool], with its [except ImportError] *)
Definition import_psycopg_pool : Method unit :=
  fun w =>
    if psycopg_pool_installed E (ext w) then (Ok tt, w)
    else (Raise (ImproperlyConfigured
                   "Error loading psycopg_pool module.\nDid you install psycopg[pool]?"), w).

(** The keyword arguments [pool] gives to [ConnectionPool]. *)
Definition pool_args (self : Wrapper) (connect_kwargs : Kwargs) (enable_checks : bool)
    (pool_options : Kwargs) : PoolArgs :=
  {| pa_kwargs := connect_kwargs;
     pa_min_size := min_connections self;
     pa_max_size := max_connections self;
     pa_max_overflow := Some (max_overflow self);
     pa_timeout := Some (timeout self);
     pa_check := enable_checks;
     pa_reset := true;
     pa_extra := pool_options |}.

(** The [pool] property. *)
Definition pool (self : Wrapper) : Method (option PoolRef) :=
  let pool_options := OPTIONS_pool (settings_dict self) in
  if bool_decide (alias self = NO_DB_ALIAS) || negb (pool_options_truthy pool_options) then
    ret None
  else
    c <- get_cls ;;
    (match _connection_pools c !! alias self with
     | Some _ => ret tt
     | None =>
         if py_ne_zero (default (VNum 0) (CONN_MAX_AGE (settings_dict self))) then
           raise (ImproperlyConfigured "Pooling doesn't support persistent connections.")
         else
           (* Set the default options *)
           let pool_options : Kwargs :=
             match pool_options with
             | PoolDict d => d
             | _ => ∅
             end in
           import_psycopg_pool ;;
           connect_kwargs <- call (connection_params E (alias self)) EvParams ;;
           let connect_kwargs := <["autocommit" := VBool true]> connect_kwargs in
           let enable_checks := default true (CONN_HEALTH_CHECKS (settings_dict self)) in
           pool <- ConnectionPool (pool_args self connect_kwargs enable_checks pool_options) ;;
           modify_cls (set_connection_pools (<[alias self := pool]>)) ;;
           now <- datetime_now ;;
           c <- get_cls ;;
           match dict_get (_pool_settings c) (alias self) with
           | Some d =>
               modify_cls (set_pool_settings (fun s =>
                 dict_set s (alias self) (<["created_at" := VTime now]> d)))
           | None => raise (KeyError_alias (alias self))
           end
     end) ;;
    c <- get_cls ;;
    match _connection_pools c !! alias self with
    | Some p => ret (Some p)
    | None => raise (KeyError_alias (alias self))
    end.

(** [self.pool.<method>]: the property, then the attribute lookup on
    what it returned. *)
Definition self_pool (self : Wrapper) : Method PoolRef :=
  p <- pool self ;;
  match p with
  | Some p => ret p
  | None => raise (AttributeError "'NoneType' object has no attribute")
  end.

Definition max_retries : nat := 10.

(** The [while True] loop of [get_new_connection]. [budget] bounds the
    number of further turns; with [budget = max_retries - retry_count]
    its [O] branch is never taken, since a further turn needs
    [retry_count < max_retries]. *)
Fixpoint connect_with_retry (budget : nat) (conn_params : Kwargs)
    (retry_count : nat) (retry_delay : Q) : Method Conn :=
  try_except (super_get_new_connection conn_params)
    (fun e =>
       if transient e && (retry_count <? max_retries)%nat then
         match budget with
         | S budget' =>
             let retry_count := S retry_count in
             logging WARNING (TooManyNoPool e retry_count max_retries) ;;
             (* Exponential backoff *)
             time_sleep retry_delay ;;
             connect_with_retry budget' conn_params retry_count (retry_delay * 2)%Q
         | O => raise e
         end
       else
         (* If it's not a connection limit issue or we've exceeded retries *)
         raise e).

(** Emergency cleanup of connections when pool is full *)
Definition _cleanup_connections (self : Wrapper) : Method bool :=
  p <- pool self ;;
  match p with
  | None => ret false
  | Some _ =>
      try_except
        ((* Close and recreate pool *)
         current_pool <- pool self ;;
         modify_cls (set_connection_pools (delete (alias self))) ;;
         (* Close previous pool *)
         try_except
           (match current_pool with
            | Some current_pool => pool_close_all current_pool
            | None => raise (AttributeError "'NoneType' object has no attribute")
            end)
           (fun _ => ret tt) ;;
         (* Allow a small delay for connections to be properly closed *)
         time_sleep (1 # 2) ;;
         (* Getting pool will recreate it *)
         _ <- pool self ;;
         ret true)
        (fun e => logging ERROR (CleanupFailed e) ;; ret false)
  end.

(** The [try] block of the pooled path of [get_new_connection]. *)
Definition getconn_validated (self : Wrapper) : Method Conn :=
  p <- self_pool self ;;
  conn <- pool_getconn p ;;
  (* Validate connection before returning *)
  has_closed <- hasattr_closed conn ;;
  usable <- (if has_closed : bool
             then closed <- connection_closed conn ;; ret (negb closed)
             else ret false) ;;
  if usable : bool then ret conn
  else
    (* Connection is closed, remove it and try again *)
    p <- self_pool self ;;
    pool_putconn p conn true ;;
    p <- self_pool self ;;
    pool_getconn p.

(** Get a connection from the pool with error handling and failover *)
Definition get_new_connection (self : Wrapper) (conn_params : Kwargs) : Method Conn :=
  p <- pool self ;;
  match p with
  | None => connect_with_retry max_retries conn_params 0 (1 # 100)
  | Some _ =>
      try_except (getconn_validated self)
        (fun e =>
           if transient e then
             (* Try emergency cleanup of connections *)
             _ <- _cleanup_connections self ;;
             (* Try again after cleanup *)
             p <- self_pool self ;;
             pool_getconn p
           else raise e)
  end.

(** [a / b] *)
Definition py_div (a b : Q) : Method Q :=
  if Qeq_bool b 0 then raise (mkExn "ZeroDivisionError" "division by zero")
  else ret (a / b)%Q.

(** Returns detailed status information about the connection pool. *)
Definition get_pool_status (self : Wrapper) : Method (list (string * Value)) :=
  p <- pool self ;;
  match p with
  | None => ret [("status", VStr "disabled")]
  | Some _ =>
      size <- (p <- self_pool self ;; pool_read p "size") ;;
      min_size <- (p <- self_pool self ;; pool_read p "min_size") ;;
      max_size <- (p <- self_pool self ;; pool_read p "max_size") ;;
      max_overflow <- (p <- self_pool self ;; pool_read p "max_overflow") ;;
      overflow <- (p <- self_pool self ;; pool_read p "overflow") ;;
      idle <- (p <- self_pool self ;; pool_read p "idle") ;;
      busy <- (p <- self_pool self ;; pool_read p "busy") ;;
      usage_percent <-
        (m <- (p <- self_pool self ;; pool_read p "max_size") ;;
         if Qgtb m 0 then
           b <- (p <- self_pool self ;; pool_read p "busy") ;;
           m <- (p <- self_pool self ;; pool_read p "max_size") ;;
           r <- py_div b m ;;
           ret (r * 100)%Q
         else ret 0%Q) ;;
      c <- get_cls ;;
      let created_at :=
        default VNone (default ∅ (dict_get (_pool_settings c) (alias self)) !! "created_at") in
      ret [("status", VStr "active");
           ("size", VNum size);
           ("min_size", VNum min_size);
           ("max_size", VNum max_size);
           ("max_overflow", VNum max_overflow);
           ("overflow", VNum overflow);
           ("idle", VNum idle);
           ("busy", VNum busy);
           ("usage_percent", VNum usage_percent);
           ("created_at", created_at)]
  end.

(** *** [close]

    [close] assigns [self.connection]; its state is the class
    attributes together with that instance attribute. *)
Abbreviation SelfMethod := (M E (Class * option Conn)).

(** A method that only touches the class attributes, run from [close]. *)
Definition on_class {A} (m : Method A) : SelfMethod A :=
  fun w =>
    let '(r, w') := m (mkWorld (ext w) (trace w) (fst (cls w))) in
    (r, mkWorld (ext w') (trace w') (cls w', snd (cls w))).

Definition get_connection : SelfMethod (option Conn) :=
  c <- get_cls ;; ret (snd c).

Definition set_connection (v : option Conn) : SelfMethod unit :=
  modify_cls (fun c => (fst c, v)).

(** [super().close], with the arguments [close] was given *)
Definition super_close : SelfMethod unit :=
  fun w =>
    let '(r, conn, s) := base_close E (snd (cls w)) (ext w) in
    (r, mkWorld s (trace w ++ [EvBaseClose r]) (fst (cls w), conn)).

(** [self.connection.<attribute>] *)
Definition self_connection : SelfMethod Conn :=
  conn <- get_connection ;;
  match conn with
  | Some c => ret c
  | None => raise (AttributeError "'NoneType' object has no attribute")
  end.

(** Return the connection to the pool instead of closing it. *)
Definition close (self : Wrapper) : SelfMethod unit :=
  conn <- get_connection ;;
  no_pool <- (match conn with
              | None => ret true
              | Some _ => p <- on_class (pool self) ;; ret (bool_decide (p = None))
              end) ;;
  if no_pool : bool then super_close
  else
    try_except
      (conn <- self_connection ;;
       closed <- connection_closed conn ;;
       if closed : bool then
         set_connection None
       else
         (* Return connection to the pool *)
         p <- on_class (self_pool self) ;;
         conn <- get_connection ;;
         match conn with
         | Some conn => pool_putconn p conn false
         | None => raise (TypeError "putconn")
         end ;;
         set_connection None)
      (fun e =>
         logging ERROR (ReturnFailed e) ;;
         (* Force close if we had an error *)
         try_except
           (conn <- get_connection ;;
            match conn with
            | Some conn =>
                closed <- connection_closed conn ;;
                if closed : bool then ret tt else connection_close conn
            | None => ret tt
            end)
           (fun _ => ret tt) ;;
         set_connection None).
(** *** The remaining methods *)

(** Close the connection pool for this alias *)
Definition close_pool (self : Wrapper) : Method unit :=
  p <- pool self ;;
  match p with
  | None => ret tt
  | Some _ =>
      c <- get_cls ;;
      match _connection_pools c !! alias self with
      | None => ret tt
      | Some _ =>
          try_except
            (p <- (c <- get_cls ;;
                   match _connection_pools c !! alias self with
                   | Some p => ret p
                   | None => raise (KeyError_alias (alias self))
                   end) ;;
             pool_close_all p ;;
             (* del self._connection_pools[self.alias] *)
             c <- get_cls ;;
             match _connection_pools c !! alias self with
             | Some _ => modify_cls (set_connection_pools (delete (alias self)))
             | None => raise (KeyError_alias (alias self))
             end)
            (fun e => logging ERROR (ClosePoolFailed (alias self) e))
      end
  end.

(** Reset the connection pool, closing idle connections. *)
Definition reset_pool (self : Wrapper) : Method bool :=
  p <- pool self ;;
  match p with
  | None => ret false
  | Some _ =>
      try_except
        (p <- self_pool self ;;
         pool_resize p (VNum (min_connections self)) ;;
         ret true)
        (fun e => logging ERROR (ResizeError e) ;; ret false)
  end.

Section Unusable.
(** [self.is_usable()] and [super().close_if_unusable_or_obsolete()], both
    inherited from the Django backend. *)
Variable is_usable : SelfMethod bool.
Variable super_close_if_unusable_or_obsolete : SelfMethod unit.

(** Modified to work with the connection pool. *)
Definition close_if_unusable_or_obsolete (self : Wrapper) : SelfMethod unit :=
  conn <- get_connection ;;
  match conn with
  | None => ret tt
  | Some _ =>
      p <- on_class (pool self) ;;
      match p with
      | None => super_close_if_unusable_or_obsolete
      | Some _ =>
          (* Check if connection is usable *)
          try_except
            (usable <- is_usable ;;
             if usable : bool then ret tt else close self)
            (fun _ =>
               (* If we can't determine if it's usable, close it to be safe *)
               close self)
      end
  end.
End Unusable.
End Methods.
End Base.

(** * [utils/database_wrapper.py] *)

Module Simple.

(** The instance attributes [__init__] sets from [settings_dict]. *)
Record Wrapper : Type := mkWrapper {
  alias : Alias;
  min_connections : Q;
  max_connections : Q;
  max_overflow : Q
}.

(** [_pools], the class-level pool storage, and the instance attribute
    [self.pool]. *)
Record State : Type := mkState {
  _pools : gmap Alias PoolRef;
  pool : option PoolRef
}.

Definition __init__ (MIN_CONNECTIONS MAX_CONNECTIONS MAX_OVERFLOW : option Q)
    (alias : Alias) : Wrapper :=
  {| alias := alias;
     min_connections := default 1%Q MIN_CONNECTIONS;
     max_connections := default 10%Q MAX_CONNECTIONS;
     max_overflow := default 5%Q MAX_OVERFLOW |}.

Section Methods.
Context {E : External}.
Abbreviation Method := (M E State).

(** [self.pool.<method>] *)
Definition self_pool : Method PoolRef :=
  st <- get_cls ;;
  match pool st with
  | Some p => ret p
  | None => raise (AttributeError "'NoneType' object has no attribute")
  end.

(** The [with self._pool_lock] block of [get_new_connection]. *)
Definition lookup_or_create (self : Wrapper) (conn_params : Kwargs) : Method unit :=
  st <- get_cls ;;
  (match _pools st !! alias self with
    | Some _ => ret tt
    | None =>
        p <- ConnectionPool
               {| pa_kwargs := conn_params;
                  pa_min_size := min_connections self;
                  pa_max_size := (max_connections self + max_overflow self)%Q;
                  pa_max_overflow := None;
                  pa_timeout := None;
                  pa_check := false;
                  pa_reset := false;
                  pa_extra := ∅ |} ;;
        modify_cls (fun st => mkState (<[alias self := p]> (_pools st)) (pool st))
   end) ;;
  st <- get_cls ;;
  match _pools st !! alias self with
  | Some p => modify_cls (fun st => mkState (_pools st) (Some p))
  | None => raise (KeyError_alias (alias self))
  end.

Definition get_new_connection (self : Wrapper) (conn_params : Kwargs) : Method Conn :=
  lookup_or_create self conn_params ;;
  connection <- (p <- self_pool ;; pool_getconn p) ;;
  try_except
    (cursor_execute_select_1 connection ;;
     ret connection)
    (fun _ =>
       p <- self_pool ;;
       pool_putconn p connection true ;;
       p <- self_pool ;;
       pool_getconn p).
(** *** [close] and [close_all_pools]

    [close] assigns [self.connection]: its state is [State] together with
    that attribute. [wrap_database_errors] is the context manager of the
    Django backend; what it does to an exception that leaves its block is
    the parameter [translate]. *)
Abbreviation SelfMethod := (M E (State * option Conn)).

Definition close (translate : Exn -> Exn) : SelfMethod unit :=
  st <- get_cls ;;
  match snd st with
  | None => ret tt
  | Some connection =>
      try_except
        (match pool (fst st) with
         | Some p =>
             (* Return the connection to the pool *)
             pool_putconn p connection false ;;
             (* Connection can no longer be used directly *)
             modify_cls (fun st => (fst st, None))
         | None => connection_close connection
         end)
        (fun e => raise (translate e))
  end.

(** Close all connection pools. [items] is [cls._pools.items()], in the
    order the dictionary gives them. *)
Definition close_all_pools (items : list (Alias * PoolRef)) : Method unit :=
  for_each items (fun '(alias, pool_instance) => pool_close_all pool_instance) ;;
  modify_cls (fun st => mkState ∅ (pool st)).
End Methods.
End Simple.

(** * A scripted environment

    A concrete [External] to run the methods in: the outcomes of the
    successive raw connects and of the successive [getconn] calls are read
    off two scripts, pool attributes off a table, and the clock advances by
    what is slept. *)

Module Sim.

Record State : Type := mkState {
  connect_script : list (result Conn);
  getconn_script : list (result Conn);
  putconn_result : result unit;
  pool_close_result : result unit;
  resize_result : result unit;
  attrs : list (PoolRef * string * Q);
  closed_flags : list (Conn * bool);
  dead : list Conn;
  fresh_pool : result PoolRef;
  now : Q
}.

Definition refused : Exn := mkExn "OperationalError" "connection refused".

(** An error of the database server that has no free connection slot. *)
Definition exhausted : Exn :=
  mkExn "OperationalError" "FATAL:  sorry, too many clients already".

Definition next_connect (s : State) : result Conn * State :=
  match connect_script s with
  | [] => (Raise refused, s)
  | r :: rest =>
      (r, mkState rest (getconn_script s) (putconn_result s) (pool_close_result s)
            (resize_result s) (attrs s) (closed_flags s) (dead s) (fresh_pool s) (now s))
  end.

Definition next_getconn (s : State) : result Conn * State :=
  match getconn_script s with
  | [] => (Raise (mkExn "PoolTimeout" "couldn't get a connection"), s)
  | r :: rest =>
      (r, mkState (connect_script s) rest (putconn_result s) (pool_close_result s)
            (resize_result s) (attrs s) (closed_flags s) (dead s) (fresh_pool s) (now s))
  end.

Definition make_pool (s : State) : result PoolRef * State :=
  (fresh_pool s,
   mkState (connect_script s) (getconn_script s) (putconn_result s) (pool_close_result s)
     (resize_result s) (attrs s) (closed_flags s) (dead s)
     (match fresh_pool s with Ok p => Ok (S p) | Raise e => Raise e end) (now s)).

Definition read_attr (p : PoolRef) (name : string) (s : State) : result Q :=
  match dict_get (attrs s) (p, name) with
  | Some q => Ok q
  | None => Raise (AttributeError name)
  end.

Definition probe (c : Conn) (s : State) : result unit * State :=
  (if bool_decide (c ∈ dead s)
   then Raise (mkExn "OperationalError" "server closed the connection unexpectedly")
   else Ok tt, s).

Definition advance (seconds : Q) (s : State) : State :=
  mkState (connect_script s) (getconn_script s) (putconn_result s) (pool_close_result s)
    (resize_result s) (attrs s) (closed_flags s) (dead s) (fresh_pool s)
    (now s + seconds)%Q.

Definition env : External :=
  {| Ext := State;
     raw_connect := fun _ => next_connect;
     connection_params := fun _ s => (Ok ∅, s);
     psycopg_pool_installed := fun _ => true;
     new_pool := fun _ => make_pool;
     getconn := fun _ => next_getconn;
     putconn := fun _ _ _ s => (putconn_result s, s);
     pool_close := fun _ s => (pool_close_result s, s);
     resize := fun _ _ s => (resize_result s, s);
     pool_attr := read_attr;
     conn_closed := fun c s => dict_get (closed_flags s) c;
     conn_close := fun _ s => (Ok tt, s);
     select_1 := probe;
     base_close := fun _ s => (Ok tt, None, s);
     clock := fun s => (now s, s);
     sleep := advance |}.

(** A quiet environment: nothing scripted, every call of the pool
    library succeeds, the first pool constructed is number 1. *)
Definition quiet : State :=
  {| connect_script := [];
     getconn_script := [];
     putconn_result := Ok tt;
     pool_close_result := Ok tt;
     resize_result := Ok tt;
     attrs := [];
     closed_flags := [];
     dead := [];
     fresh_pool := Ok 1%nat;
     now := 0 |}.

(** The world a process starts in. *)
Definition start {C} (s : State) (c : C) : World env C := mkWorld (s : Ext env) [] c.
End Sim.

(** * Vocabulary of the statements *)

(** Pooling is switched on for the wrapper: the guard at the top of
    [Base.pool] does not return [None]. *)
Definition pooling_enabled (self : Base.Wrapper) : Prop :=
  Base.alias self ≠ NO_DB_ALIAS ∧
  Base.pool_options_truthy (Base.OPTIONS_pool (Base.settings_dict self)) = true.

(** The delays of [n] successive back-offs that start at [d]. *)
Fixpoint backoff_delays (n : nat) (d : Q) : list Q :=
  match n with
  | O => []
  | S n' => d :: backoff_delays n' (d * 2)%Q
  end.

(** What the retry loop leaves in the trace when the raw connect fails with
    the errors [fails], one after the other, and then ends with [final]:
    each failure is followed by its warning and its sleep. [count] is the
    number of retries already made and [d] the next delay. *)
Fixpoint retry_trace (params : Kwargs) (fails : list Exn) (count : nat) (d : Q)
    (final : result Conn) : list Event :=
  match fails with
  | [] => [EvConnect params final]
  | e :: rest =>
      EvConnect params (Raise e)
      :: EvLog WARNING (TooManyNoPool e (S count) Base.max_retries)
      :: EvSleep d
      :: retry_trace params rest (S count) (d * 2)%Q final
  end.

(** The durations slept, in order, and the number of raw connects, in a
    piece of trace. *)
Fixpoint slept (evs : list Event) : list Q :=
  match evs with
  | [] => []
  | EvSleep d :: rest => d :: slept rest
  | _ :: rest => slept rest
  end.

Fixpoint connects (evs : list Event) : nat :=
  match evs with
  | [] => 0
  | EvConnect _ _ :: rest => S (connects rest)
  | _ :: rest => connects rest
  end.

(** Validation by a round trip, as a shape of trace: the events [evs] of
    an acquisition on pool [p] that ends with [r]. The connection obtained
    is probed; a failed probe sends it back to the pool to be closed and is
    followed by one more [getconn] on [p], whose outcome is final. *)
Inductive probe_protocol (p : PoolRef) : list Event → result Conn → Prop :=
| probe_no_connection e :
    probe_protocol p [EvGetconn p (Raise e)] (Raise e)
| probe_passed c :
    probe_protocol p [EvGetconn p (Ok c); EvProbe c (Ok tt)] (Ok c)
| probe_failed_replaced c e r :
    probe_protocol p
      [EvGetconn p (Ok c); EvProbe c (Raise e); EvPutconn p c true (Ok tt); EvGetconn p r] r
| probe_failed_discard_failed c e e' :
    probe_protocol p
      [EvGetconn p (Ok c); EvProbe c (Raise e); EvPutconn p c true (Raise e')] (Raise e').

(** Validation by the [closed] attribute, as a shape of trace: [None] is a
    connection without the attribute, read once by [hasattr]; otherwise the
    attribute is read by [hasattr] and again for its value. *)
Definition flag_reads (c : Conn) (flag : option bool) : list Event :=
  match flag with
  | None => [EvClosed c None]
  | Some b => [EvClosed c (Some b); EvClosed c (Some b)]
  end.

Inductive flag_protocol (p : PoolRef) : list Event → result Conn → Prop :=
| flag_no_connection e :
    flag_protocol p [EvGetconn p (Raise e)] (Raise e)
| flag_open c :
    flag_protocol p (EvGetconn p (Ok c) :: flag_reads c (Some false)) (Ok c)
| flag_closed_replaced c flag r :
    flag ≠ Some false →
    flag_protocol p
      (EvGetconn p (Ok c) :: flag_reads c flag ++ [EvPutconn p c true (Ok tt); EvGetconn p r]) r
| flag_closed_discard_failed c flag e :
    flag ≠ Some false →
    flag_protocol p
      (EvGetconn p (Ok c) :: flag_reads c flag ++ [EvPutconn p c true (Raise e)]) (Raise e).





(** The events of building the pool of a wrapper, during an emergency
    recovery: the collaborators asked by the [pool] property, the pool
    constructor called with the arguments the wrapper always gives it, and
    the log entry of a failed cleanup. *)
Definition rebuild_event (self : Base.Wrapper) (ev : Event) : Prop :=
  match ev with
  | EvParams _ | EvNow _ | EvLog ERROR (CleanupFailed _) => True
  | EvPoolNew args _ =>
      ∃ kw, args = Base.pool_args self (<["autocommit" := VBool true]> kw)
                     (default true (Base.CONN_HEALTH_CHECKS (Base.settings_dict self)))
                     (match Base.OPTIONS_pool (Base.settings_dict self) with
                      | PoolDict d => d
                      | _ => ∅
                      end)
  | _ => False
  end.

(** ** Vocabulary of the further properties *)

(** A method only appends events that [allowed] accepts, in every world and
    however it ends. *)
Definition emits {E C A} (allowed : Event → bool) (m : M E C A) : Prop :=
  ∀ w, ∃ evs, trace (snd (m w)) = (trace w ++ evs)%list ∧ forallb allowed evs = true.

(** A method keeps a property of the class attributes, however it ends. *)
Definition keeps {E C A} (I : C → Prop) (m : M E C A) : Prop :=
  ∀ w, I (cls w) → I (cls (snd (m w))).

(** Raw connects; calls that go to a pool; what a status query may do. *)
Definition is_connect (ev : Event) : bool :=
  match ev with
  | EvConnect _ _ => true
  | _ => false
  end.

Definition is_thread_start (ev : Event) : bool :=
  match ev with
  | EvThreadStart => true
  | _ => false
  end.

Definition is_pool_call (ev : Event) : bool :=
  match ev with
  | EvParams _ | EvPoolNew _ _ | EvGetconn _ _ | EvPutconn _ _ _ _
  | EvPoolClose _ _ | EvResize _ _ _ | EvAttr _ _ _ => true
  | _ => false
  end.

Definition builds_or_reads (ev : Event) : bool :=
  match ev with
  | EvParams _ | EvPoolNew _ _ | EvNow _ | EvAttr _ _ _ => true
  | _ => false
  end.

(** The sum of a list of durations. *)
Definition total (l : list Q) : Q := fold_right Qplus 0%Q l.



(** The shapes of the calls [Base.close] makes on its pool path, for the
    connection [c] and the pool [p]: found closed; given back; or an error
    (a missing [closed] attribute, or [putconn] raising), its log entry and
    the forced close, which closes the connection unless it is found closed
    or cannot be asked. *)
Inductive forced_close (c : Conn) : list Event → Prop :=
| forced_skipped flag :
    flag ≠ Some false → forced_close c [EvClosed c flag]
| forced_done r :
    forced_close c [EvClosed c (Some false); EvConnClose c r].

Inductive close_protocol (p : PoolRef) (c : Conn) : list Event → Prop :=
| close_found_closed :
    close_protocol p c [EvClosed c (Some true)]
| close_given_back :
    close_protocol p c [EvClosed c (Some false); EvPutconn p c false (Ok tt)]
| close_no_attribute forced :
    forced_close c forced →
    close_protocol p c
      (EvClosed c None :: EvLog ERROR (ReturnFailed (AttributeError "closed")) :: forced)
| close_putconn_failed e forced :
    forced_close c forced →
    close_protocol p c
      (EvClosed c (Some false) :: EvPutconn p c false (Raise e)
       :: EvLog ERROR (ReturnFailed e) :: forced).


(** ** Example wrappers and worlds *)

(** Reads of a pool attribute. *)
Definition is_attr_read (ev : Event) : bool :=
  match ev with
  | EvAttr _ _ _ => true
  | _ => false
  end.

(** A computation that, run with the collaborators in state [s0] and the
    class attributes [c0], only reads pool attributes and leaves both as
    they are. *)
Definition reads_only {E A} (s0 : Ext E) (c0 : Base.Class) (m : M E Base.Class A) : Prop :=
  ∀ w, ext w = s0 → cls w = c0 →
    ∃ evs,
      trace (snd (m w)) = (trace w ++ evs)%list ∧
      forallb is_attr_read evs = true ∧
      ext (snd (m w)) = s0 ∧ cls (snd (m w)) = c0.

(** The events of closing the pools [items], all successfully. *)
Definition all_closed (items : list (Alias * PoolRef)) : list Event :=
  map (λ item, EvPoolClose (snd item) (Ok tt)) items.

Module Examples.

(** Settings with pooling switched on; the other keys are left to their
    defaults unless given. *)
Definition pooled (min_conn max_conn max_age : option Q) (conn_max_age : option Value) :
    Base.SettingsDict :=
  {| Base.MIN_CONNECTIONS := min_conn;
     Base.MAX_CONNECTIONS := max_conn;
     Base.MAX_OVERFLOW := None;
     Base.POOL_TIMEOUT := None;
     Base.POOL_MAX_CONN_AGE := max_age;
     Base.POOL_RECYCLE_THRESHOLD := Some (8 # 10)%Q;
     Base.CONN_MAX_AGE := conn_max_age;
     Base.CONN_HEALTH_CHECKS := None;
     Base.OPTIONS_pool := PoolFlag true |}.

(** Settings without the [pool] option. *)
Definition unpooled : Base.SettingsDict :=
  {| Base.MIN_CONNECTIONS := None;
     Base.MAX_CONNECTIONS := None;
     Base.MAX_OVERFLOW := None;
     Base.POOL_TIMEOUT := None;
     Base.POOL_MAX_CONN_AGE := None;
     Base.POOL_RECYCLE_THRESHOLD := None;
     Base.CONN_MAX_AGE := None;
     Base.CONN_HEALTH_CHECKS := None;
     Base.OPTIONS_pool := PoolUnset |}.

(** A wrapper for the alias ["default"] with pooling on, and one for the
    same alias asking for persistent connections as well. *)
Definition default_wrapper : Base.Wrapper :=
  Base.mkWrapper (pooled (Some 2%Q) (Some 10%Q) None None) (Some "default")
    2 10 10 3000 1800 (8 # 10).

Definition persistent_wrapper : Base.Wrapper :=
  Base.mkWrapper (pooled (Some 2%Q) (Some 10%Q) None (Some (VNum 600))) (Some "default")
    2 10 10 3000 1800 (8 # 10).

(** A wrapper whose settings have no [pool] option. *)
Definition unpooled_wrapper : Base.Wrapper :=
  Base.mkWrapper unpooled (Some "default") 20 100 10 3000 1800 (8 # 10).

(** Class attributes once ["default"] has its settings and pool number 1. *)
Definition one_pool : Base.Class :=
  Base.mkClass {[ Some "default" := 1%nat ]}
    [(Some "default",
      <["created_at" := VTime 0]>
      (<["timeout" := VNum 3000]>
       (<["max_overflow" := VNum 10]>
        (<["max_connections" := VNum 10]>
         (<["min_connections" := VNum 2]> ∅)))))]
    true.

(** A database that refuses three connects for lack of slots and accepts
    the fourth, handing out connection 7. *)
Definition three_refusals : Sim.State :=
  Sim.mkState [Raise Sim.exhausted; Raise Sim.exhausted; Raise Sim.exhausted; Ok 7%nat]
    [] (Ok tt) (Ok tt) (Ok tt) [] [] [] (Ok 1%nat) 0.

(** The pool library refuses to take connections back. *)
Definition putconn_fails : Sim.State :=
  Sim.mkState [] [] (Raise (mkExn "PoolClosed" "the pool is closed")) (Ok tt) (Ok tt)
    [] [(5%nat, false)] [] (Ok 2%nat) 0.


(** The pool hands out connection 5, whose [closed] attribute says it is
    open but on which no query goes through any more. *)
Definition dead_but_open : Sim.State :=
  Sim.mkState [] [Ok 5%nat; Ok 6%nat] (Ok tt) (Ok tt) (Ok tt)
    [] [(5%nat, false); (6%nat, false)] [5%nat] (Ok 2%nat) 0.



(** A process with pools for two aliases, ["default"] and ["replica"], on
    a pool library whose pools have no attribute [busy]. *)
Definition two_aliases : World Sim.env Base.Class :=
  snd ((default <- Base.__init__ (pooled None None None None) (Some "default") ;;
        replica <- Base.__init__ (pooled None None None None) (Some "replica") ;;
        _ <- Base.pool default ;;
        Base.pool replica) (Sim.start Sim.quiet Base.empty_class)).

(** The pool of ["default"] cannot get a connection because the server
    has no free slot; after the recovery the new pool hands out
    connection 8. *)
Definition server_full : Sim.State :=
  Sim.mkState [] [Raise Sim.exhausted; Ok 8%nat] (Ok tt)
    (Raise (mkExn "PoolClosed" "the pool is closed")) (Ok tt)
    [] [(8%nat, false)] [] (Ok 2%nat) 0.

(** Two aliases whose settings dictionaries do hold a recycle threshold,
    as [_check_all_pools] expects, with pools 1 and 2. *)
Definition with_threshold : Base.Class :=
  let settings :=
    <["recycle_threshold" := VNum (8 # 10)]>
    (<["created_at" := VTime 0]>
     (<["max_connections" := VNum 10]>
      (<["min_connections" := VNum 2]> ∅))) in
  Base.mkClass {[ Some "default" := 1%nat; Some "replica" := 2%nat ]}
    [(Some "default", settings); (Some "replica", settings)] true.

(** Both pools have nine busy connections, and [resize] fails. *)
Definition resize_fails : Sim.State :=
  Sim.mkState [] [] (Ok tt) (Ok tt) (Raise (mkExn "PoolClosed" "the pool is closed"))
    [((1%nat, "busy"), 9%Q); ((2%nat, "busy"), 9%Q)] [] [] (Ok 3%nat) 0.




(** The pool library fails to close pools. *)
Definition close_fails : Sim.State :=
  Sim.mkState [] [] (Ok tt) (Raise (mkExn "PoolClosed" "the pool is closed")) (Ok tt)
    [] [] [] (Ok 2%nat) 0.

(** An [is_usable] that asks the server, as the PostgreSQL backend does. *)
Definition probing_is_usable : M Sim.env (Base.Class * option Conn) bool :=
  conn <- Base.get_connection ;;
  match conn with
  | Some c => try_except (cursor_execute_select_1 c ;; ret true) (fun _ => ret false)
  | None => ret false
  end.

Definition simple_wrapper : Simple.Wrapper := Simple.__init__ None None None (Some "default").

Definition simple_one_pool : Simple.State := Simple.mkState {[ Some "default" := 1%nat ]} None.

(** A process of [database_wrapper.py] whose wrapper has acquired
    connection 7 from pool 1, and the same process after
    [close_all_pools]. *)
Definition simple_connected : World Sim.env Simple.State :=
  snd (Simple.get_new_connection simple_wrapper ∅
         (Sim.start (Sim.mkState [] [Ok 7%nat] (Ok tt) (Ok tt) (Ok tt) [] [] [] (Ok 1%nat) 0)
            (Simple.mkState ∅ None))).

Definition simple_after_close_all : World Sim.env Simple.State :=
  snd (Simple.close_all_pools (map_to_list (Simple._pools (cls simple_connected)))
         simple_connected).

(** The pool library refuses connections that are given back. *)
Definition putconn_refused : Sim.State :=
  Sim.mkState [] [] (Raise (mkExn "PoolError" "trying to put unkeyed connection")) (Ok tt)
    (Ok tt) [] [] [] (Ok 2%nat) 0.

(** [wrap_database_errors] for the errors of the examples: the error of
    the database driver becomes the one of the framework. *)
Definition wrap_database_errors (e : Exn) : Exn :=
  if String.eqb (exn_type e) "PoolError"
  then mkExn "django.db.utils.Error" (str e)
  else e.
End Examples.

(** * Properties *)

(** ** Running the monad *)

Section Run.
Context {E : External} {C : Type}.

Lemma bind_run {A B} (m : M E C A) (k : A → M E C B) w :
  bind m k w =
  match m w with
  | (Ok a, w') => k a w'
  | (Raise e, w') => (Raise e, w')
  end.
Proof. reflexivity. Qed.

Lemma bind_ok {A B} (m : M E C A) (k : A → M E C B) w a w' :
  m w = (Ok a, w') → bind m k w = k a w'.
Proof. intros H. unfold bind. by rewrite H. Qed.

Lemma bind_raise {A B} (m : M E C A) (k : A → M E C B) w e w' :
  m w = (Raise e, w') → bind m k w = (Raise e, w').
Proof. intros H. unfold bind. by rewrite H. Qed.

Lemma bind_inv {A B} (m : M E C A) (k : A → M E C B) w r w' :
  bind m k w = (r, w') →
  (∃ a w1, m w = (Ok a, w1) ∧ k a w1 = (r, w')) ∨
  (∃ e, m w = (Raise e, w') ∧ r = Raise e).
Proof.
  unfold bind. destruct (m w) as [[a|e] w1]; intros H.
  - left. eauto.
  - right. exists e. by simplify_eq.
Qed.

Lemma try_except_ok {A} (body : M E C A) handler w a w' :
  body w = (Ok a, w') → try_except body handler w = (Ok a, w').
Proof. intros H. unfold try_except. by rewrite H. Qed.

Lemma try_except_raise {A} (body : M E C A) handler w e w' :
  body w = (Raise e, w') → try_except body handler w = handler e w'.
Proof. intros H. unfold try_except. by rewrite H. Qed.
End Run.

(** ** The [pool] property *)

Section PoolProperty.
Context {E : External}.
Implicit Types (self : Base.Wrapper) (w : World E Base.Class).

Lemma pooling_enabled_guard self :
  pooling_enabled self →
  bool_decide (Base.alias self = NO_DB_ALIAS)
  || negb (Base.pool_options_truthy (Base.OPTIONS_pool (Base.settings_dict self))) = false.
Proof.
  intros [Hne Ht]. rewrite Ht. rewrite bool_decide_eq_false_2; done.
Qed.

Lemma pool_existing self w p :
  pooling_enabled self →
  Base._connection_pools (cls w) !! Base.alias self = Some p →
  Base.pool self w = (Ok (Some p), w).
Proof.
  intros Hen Hp. unfold Base.pool.
  rewrite (pooling_enabled_guard _ Hen).
  unfold bind, get_cls, ret. rewrite Hp. cbn. rewrite Hp. reflexivity.
Qed.

Lemma self_pool_existing self w p :
  pooling_enabled self →
  Base._connection_pools (cls w) !! Base.alias self = Some p →
  Base.self_pool self w = (Ok p, w).
Proof.
  intros Hen Hp. unfold Base.self_pool, bind.
  rewrite (pool_existing _ _ _ Hen Hp). reflexivity.
Qed.

Lemma pool_disabled self w :
  ¬ pooling_enabled self → Base.pool self w = (Ok None, w).
Proof.
  intros Hn. unfold Base.pool.
  destruct (bool_decide (Base.alias self = NO_DB_ALIAS)) eqn:Ha; [reflexivity|].
  destruct (Base.pool_options_truthy _) eqn:Ht; [|reflexivity].
  exfalso. apply Hn. apply bool_decide_eq_false in Ha. by split.
Qed.

(** Whatever [pool] returns, it returns a pool only if pooling is on and
    the registry then holds that pool for the alias. *)
Lemma pool_returns_registered self w w' p :
  Base.pool self w = (Ok (Some p), w') →
  pooling_enabled self ∧ Base._connection_pools (cls w') !! Base.alias self = Some p.
Proof.
  unfold Base.pool.
  destruct (bool_decide (Base.alias self = NO_DB_ALIAS)) eqn:Ha; [discriminate|].
  destruct (Base.pool_options_truthy _) eqn:Ht; [|discriminate].
  cbn [orb negb]. intros H. split.
  { apply bool_decide_eq_false in Ha. by split. }
  apply bind_inv in H as [(c & w0 & Hc & H)|(e & _ & ?)]; [|done].
  apply bind_inv in H as [([] & w1 & _ & H)|(e & _ & ?)]; [|done].
  revert H. unfold bind, get_cls.
  destruct (Base._connection_pools (cls w1) !! Base.alias self) eqn:Hl;
    unfold ret, raise; intros; by simplify_eq.
Qed.
End PoolProperty.

(** ** Pool construction is idempotent *)

Section Idempotent.
Context {E : External}.

Lemma lookup_or_create_existing (self : Simple.Wrapper) params (w : World E Simple.State) p :
  Simple._pools (cls w) !! Simple.alias self = Some p →
  Simple.lookup_or_create self params w =
  (Ok tt, mkWorld (ext w) (trace w) (Simple.mkState (Simple._pools (cls w)) (Some p))).
Proof.
  intros Hp. unfold Simple.lookup_or_create, bind, get_cls, ret, modify_cls.
  rewrite Hp. cbn. rewrite Hp. reflexivity.
Qed.

Lemma pool_twice (self : Base.Wrapper) (w w' : World E Base.Class) p :
  Base.pool self w = (Ok (Some p), w') → Base.pool self w' = (Ok (Some p), w').
Proof.
  intros H. apply pool_returns_registered in H as [Hen Hp]. by apply pool_existing.
Qed.
End Idempotent.

(** C6. A pool access for an alias that already has a pool returns that
    pool, constructs nothing and leaves the registry (indeed the whole
    world) as it was: for the [pool] property of [base.py] when pooling is
    switched on, and for the locked block of [database_wrapper.py], which
    only records the pool found in [self.pool]. A second access after any
    successful one therefore returns the same pool and changes nothing, so
    the registry never holds more than the one pool per alias. *)
Theorem pool_access_idempotent (E : External)
    (self : Base.Wrapper) (w : World E Base.Class) (p : PoolRef)
    (self' : Simple.Wrapper) (params : Kwargs) (w' : World E Simple.State) (p' : PoolRef) :
  pooling_enabled self →
  Base._connection_pools (cls w) !! Base.alias self = Some p →
  Simple._pools (cls w') !! Simple.alias self' = Some p' →
  Base.pool self w = (Ok (Some p), w) ∧
  (∀ (w0 w1 : World E Base.Class) p1, Base.pool self w0 = (Ok (Some p1), w1) →
               Base.pool self w1 = (Ok (Some p1), w1)) ∧
  Simple.lookup_or_create self' params w' =
    (Ok tt, mkWorld (ext w') (trace w') (Simple.mkState (Simple._pools (cls w')) (Some p'))).
Proof.
  intros Hen Hp Hp'. split; [|split].
  - by apply pool_existing.
  - intros w0 w1 p1. apply pool_twice.
  - by apply lookup_or_create_existing.
Qed.

(** ** Pooling with persistent connections *)

(** C7. With pooling switched on, a nonzero [CONN_MAX_AGE] and no pool yet
    for the alias, the [pool] property raises [ImproperlyConfigured] and
    leaves the world untouched: nothing is added to the registry and no
    collaborator is called. [get_new_connection] lets that error through at
    its first pool access, again with the world untouched: nothing is
    retried, slept on or opened; and so do the emergency cleanup and the
    status report. *)
Theorem persistent_connections_rejected (E : External)
    (self : Base.Wrapper) (conn_params : Kwargs) (w : World E Base.Class) :
  pooling_enabled self →
  Base.py_ne_zero (default (VNum 0) (Base.CONN_MAX_AGE (Base.settings_dict self))) = true →
  Base._connection_pools (cls w) !! Base.alias self = None →
  let e := ImproperlyConfigured "Pooling doesn't support persistent connections." in
  Base.pool self w = (Raise e, w) ∧
  Base.get_new_connection self conn_params w = (Raise e, w) ∧
  Base._cleanup_connections self w = (Raise e, w) ∧
  Base.get_pool_status self w = (Raise e, w).
Proof.
  intros Hen Hage Hnone e.
  assert (Hpool : Base.pool self w = (Raise e, w)).
  { unfold Base.pool. rewrite (pooling_enabled_guard _ Hen).
    unfold bind, get_cls. rewrite Hnone, Hage. reflexivity. }
  split; [exact Hpool|].
  unfold Base.get_new_connection, Base._cleanup_connections, Base.get_pool_status.
  by rewrite !(bind_raise _ _ _ _ _ Hpool).
Qed.

Lemma pool_access_idempotent_witness :
  Base.pool Examples.default_wrapper (Sim.start Sim.quiet Examples.one_pool) =
    (Ok (Some 1%nat), Sim.start Sim.quiet Examples.one_pool) ∧
  Simple._pools (cls (snd (Simple.lookup_or_create Examples.simple_wrapper ∅
                             (Sim.start Sim.quiet Examples.simple_one_pool)))) =
    {[ Some "default" := 1%nat ]}.
Proof.
  destruct (pool_access_idempotent Sim.env
              Examples.default_wrapper (Sim.start Sim.quiet Examples.one_pool) 1%nat
              Examples.simple_wrapper ∅ (Sim.start Sim.quiet Examples.simple_one_pool) 1%nat)
    as (H1 & _ & H3).
  - split; [discriminate | reflexivity].
  - vm_compute. reflexivity.
  - vm_compute. reflexivity.
  - split; [exact H1|]. rewrite H3. reflexivity.
Defined.

Lemma persistent_connections_rejected_witness :
  fst (Base.get_new_connection Examples.persistent_wrapper ∅
         (Sim.start Sim.quiet Base.empty_class)) =
  Raise (ImproperlyConfigured "Pooling doesn't support persistent connections.").
Proof.
  destruct (persistent_connections_rejected Sim.env Examples.persistent_wrapper ∅
              (Sim.start Sim.quiet Base.empty_class)) as (_ & H & _).
  - split; [discriminate | reflexivity].
  - reflexivity.
  - vm_compute. reflexivity.
  - rewrite H. reflexivity.
Defined.

(** ** Opening a raw connection without a pool *)

Section Retry.
Context {E : External}.
Implicit Types (w : World E Base.Class).

Lemma slept_retry_trace params fails count d final :
  slept (retry_trace params fails count d final) = backoff_delays (length fails) d.
Proof.
  revert count d. induction fails as [|e fails IH]; intros count d; cbn; [done|].
  by rewrite IH.
Qed.

Lemma connects_retry_trace params fails count d final :
  connects (retry_trace params fails count d final) = S (length fails).
Proof.
  revert count d. induction fails as [|e fails IH]; intros count d; cbn; [done|].
  by rewrite IH.
Qed.

Lemma backoff_delays_above n d :
  (0 < d)%Q → Forall (λ x, (d <= x)%Q) (backoff_delays n d).
Proof.
  revert d. induction n as [|n IH]; intros d Hd; cbn; constructor.
  - apply Qle_refl.
  - assert (Hlt : (d < d * 2)%Q).
    { rewrite <- (Qmult_1_r d) at 1. apply Qmult_lt_l; [exact Hd | reflexivity]. }
    eapply Forall_impl; [apply IH; by eapply Qlt_trans|].
    intros x Hx. cbn in Hx. apply Qlt_le_weak. by eapply Qlt_le_trans.
Qed.

(** Every delay is strictly shorter than all the later ones. *)
Lemma backoff_delays_increasing n d :
  (0 < d)%Q → StronglySorted Qlt (backoff_delays n d).
Proof.
  revert d. induction n as [|n IH]; intros d Hd; cbn; constructor.
  - assert (Hlt : (d < d * 2)%Q).
    { rewrite <- (Qmult_1_r d) at 1. apply Qmult_lt_l; [exact Hd | reflexivity]. }
    apply IH. by eapply Qlt_trans.
  - assert (Hlt : (d < d * 2)%Q).
    { rewrite <- (Qmult_1_r d) at 1. apply Qmult_lt_l; [exact Hd | reflexivity]. }
    eapply Forall_impl; [apply (backoff_delays_above n (d * 2)); by eapply Qlt_trans|].
    intros x Hx. cbn in Hx. by eapply Qlt_le_trans.
Qed.

Lemma connect_with_retry_unfold budget params count d :
  Base.connect_with_retry (E:=E) budget params count d =
  try_except (super_get_new_connection params)
    (fun e =>
       if transient e && (count <? Base.max_retries)%nat then
         match budget return M E Base.Class Conn with
         | S budget' =>
             logging WARNING (TooManyNoPool e (S count) Base.max_retries) ;;
             time_sleep d ;;
             Base.connect_with_retry budget' params (S count) (d * 2)%Q
         | O => raise e
         end
       else raise e).
Proof. destruct budget; reflexivity. Qed.

(** The loop, for a budget that covers the retries still allowed. *)
Lemma connect_with_retry_spec budget params count d w :
  (count ≤ Base.max_retries)%nat →
  (Base.max_retries ≤ count + budget)%nat →
  ∃ fails final w',
    Base.connect_with_retry budget params count d w = (final, w') ∧
    trace w' = (trace w ++ retry_trace params fails count d final)%list ∧
    cls w' = cls w ∧
    (length fails + count ≤ Base.max_retries)%nat ∧
    Forall (λ e, transient e = true) fails ∧
    (∀ e, final = Raise e → transient e = false ∨ (length fails + count = Base.max_retries)%nat).
Proof.
  revert count d w. induction budget as [|budget IH]; intros count d w Hle Hbudget.
  - (* no turn left: the bound is reached, a failure is final *)
    rewrite connect_with_retry_unfold.
    unfold try_except, super_get_new_connection, call.
    destruct (raw_connect E params (ext w)) as [[c|e] s] eqn:Hc.
    + exists [], (Ok c). eexists. cbn. repeat split; [lia|constructor|done].
    + assert ((count <? Base.max_retries)%nat = false) as -> by (apply Nat.ltb_ge; lia).
      rewrite andb_false_r.
      exists [], (Raise e). eexists. cbn. repeat split; [lia|constructor|].
      intros e' _. right. lia.
  - rewrite connect_with_retry_unfold.
    unfold try_except, super_get_new_connection, call.
    destruct (raw_connect E params (ext w)) as [[c|e] s] eqn:Hc.
    + exists [], (Ok c). eexists. cbn. repeat split; [lia|constructor|done].
    + destruct (transient e) eqn:Ht; cbn [andb].
      * destruct (count <? Base.max_retries)%nat eqn:Hlt.
        -- apply Nat.ltb_lt in Hlt.
           unfold bind at 1, logging at 1. unfold bind at 1, time_sleep at 1.
           match goal with |- context [Base.connect_with_retry budget params (S count) _ ?w1] =>
             destruct (IH (S count) (d * 2)%Q w1) as (fails & final & w' & Hrun & Htr & Hcls & Hlen & Hall & Hfin);
               [lia|lia|]
           end.
           exists (e :: fails), final, w'. rewrite Hrun. cbn in Htr, Hcls.
           repeat split.
           ++ rewrite Htr. cbn. rewrite <- !app_assoc. reflexivity.
           ++ exact Hcls.
           ++ cbn. lia.
           ++ by constructor.
           ++ intros e' He'. destruct (Hfin e' He') as [?|?]; [by left|right; cbn; lia].
        -- apply Nat.ltb_ge in Hlt.
           exists [], (Raise e). eexists. cbn. repeat split; [lia|constructor|].
           intros e' _. right. lia.
      * exists [], (Raise e). eexists. cbn. repeat split; [lia|constructor|].
        intros e' He'. left. by simplify_eq.
Qed.
End Retry.

(** C1. Without a pool, [get_new_connection] runs the raw connect in a
    loop. Whatever the database does, the run is a list [fails] of at most
    10 failures, each carrying "too many clients already" and each followed
    by a warning and a sleep, and then one last connect whose outcome
    [final] is the outcome of the method: the connection, or the failure
    that propagates. A failure propagates right after the connect that
    raised it, and only if it is not such an exhaustion error or if 10
    retries were already made (so the connect is run at most 11 times). The
    sleeps are 0.01 s, then twice the previous one each time, hence strictly
    increasing. In particular three failures and a success are four
    connects with the delays 0.01, 0.02 and 0.04. The class attributes are
    not touched. *)
Theorem no_pool_retries_with_backoff (E : External)
    (self : Base.Wrapper) (conn_params : Kwargs) (w : World E Base.Class) :
  ¬ pooling_enabled self →
  ∃ fails final w',
    Base.get_new_connection self conn_params w = (final, w') ∧
    trace w' = (trace w ++ retry_trace conn_params fails 0 (1 # 100) final)%list ∧
    cls w' = cls w ∧
    (length fails ≤ 10)%nat ∧
    Forall (λ e, transient e = true) fails ∧
    (∀ e, final = Raise e → transient e = false ∨ length fails = 10%nat) ∧
    connects (retry_trace conn_params fails 0 (1 # 100) final) = S (length fails) ∧
    slept (retry_trace conn_params fails 0 (1 # 100) final)
      = backoff_delays (length fails) (1 # 100) ∧
    StronglySorted Qlt (backoff_delays (length fails) (1 # 100)) ∧
    (length fails = 3%nat →
     backoff_delays (length fails) (1 # 100) = [1 # 100; 2 # 100; 4 # 100]%Q).
Proof.
  intros Hoff.
  destruct (connect_with_retry_spec Base.max_retries conn_params 0 (1 # 100) w)
    as (fails & final & w' & Hrun & Htr & Hcls & Hlen & Hall & Hfin);
    [unfold Base.max_retries; lia .. |].
  exists fails, final, w'. unfold Base.max_retries in *.
  split; [|repeat split].
  - unfold Base.get_new_connection.
    rewrite (bind_ok _ _ _ _ _ (pool_disabled self w Hoff)). exact Hrun.
  - exact Htr.
  - exact Hcls.
  - lia.
  - exact Hall.
  - intros e He. destruct (Hfin e He) as [?|?]; [by left|right; lia].
  - apply connects_retry_trace.
  - apply slept_retry_trace.
  - by apply backoff_delays_increasing.
  - intros ->. reflexivity.
Qed.

Lemma no_pool_retries_with_backoff_witness :
  let run := Base.get_new_connection Examples.unpooled_wrapper ∅
               (Sim.start Examples.three_refusals Base.empty_class) in
  fst run = Ok 7%nat ∧
  connects (trace (snd run)) = 4%nat ∧
  slept (trace (snd run)) = [1 # 100; 2 # 100; 4 # 100]%Q.
Proof.
  destruct (no_pool_retries_with_backoff Sim.env Examples.unpooled_wrapper ∅
              (Sim.start Examples.three_refusals Base.empty_class))
    as (fails & final & w' & Hrun & Htr & _ & _ & _ & _ & Hconn & Hslept & _ & Hthree).
  - intros [_ H]. discriminate H.
  - cbn zeta. rewrite Hrun. cbn [fst snd].
    assert (Hfinal : final = Ok 7%nat).
    { apply (f_equal fst) in Hrun. vm_compute in Hrun. by simplify_eq. }
    assert (Hn : connects (trace w') = 4%nat).
    { apply (f_equal (λ x, connects (trace (snd x)))) in Hrun.
      vm_compute in Hrun. by simplify_eq. }
    rewrite Htr in Hn |- *. cbn [Sim.start trace app] in Hn |- *.
    rewrite Hconn in Hn. rewrite Hslept.
    split; [exact Hfinal|]. split; [by rewrite Hconn|]. apply Hthree. lia.
Defined.

(** ** [close] on the pool path *)

Section Close.
Context {E : External}.
Implicit Types (w : World E (Base.Class * option Conn)).


End Close.



(** ** The status report *)

Section Status.
Context {E : External}.
Implicit Types (w : World E Base.Class).


End Status.



(** ** Validation of a pooled connection *)

Section Validation.
Context {E : External}.

Lemma simple_self_pool_run (w : World E Simple.State) p :
  Simple.pool (cls w) = Some p → Simple.self_pool w = (Ok p, w).
Proof. intros H. unfold Simple.self_pool, bind, get_cls. rewrite H. reflexivity. Qed.

(** [database_wrapper.py] follows the probe protocol. *)
Lemma simple_get_new_connection_probes (self : Simple.Wrapper) params
    (w : World E Simple.State) p :
  Simple._pools (cls w) !! Simple.alias self = Some p →
  ∃ r w' evs,
    Simple.get_new_connection self params w = (r, w') ∧
    trace w' = (trace w ++ evs)%list ∧
    probe_protocol p evs r.
Proof.
  intros Hp. unfold Simple.get_new_connection.
  rewrite (bind_ok _ _ _ _ _ (lookup_or_create_existing self params w p Hp)).
  unfold bind at 1. unfold bind at 1.
  rewrite (simple_self_pool_run _ p) by reflexivity.
  unfold pool_getconn at 1, call at 1. cbn [ext trace cls emit].
  destruct (getconn E p (ext w)) as [[c|e] s1].
  2:{ eexists _, _, _. split; [reflexivity|]. split; [reflexivity|]. constructor. }
  unfold try_except, bind at 1, cursor_execute_select_1, call at 1. cbn [ext trace cls emit].
  destruct (select_1 E c s1) as [[[]|e] s2].
  { eexists _, _, _. split; [reflexivity|]. cbn [ext trace cls emit]. rewrite <- app_assoc.
    split; [reflexivity|]. constructor. }
  unfold bind at 1. rewrite (simple_self_pool_run _ p) by reflexivity.
  unfold bind at 1, pool_putconn, call at 1. cbn [ext trace cls emit].
  destruct (putconn E p c true s2) as [[[]|e'] s3].
  2:{ eexists _, _, _. split; [reflexivity|]. cbn [ext trace cls emit]. rewrite <- !app_assoc.
      split; [reflexivity|]. constructor. }
  unfold bind at 1. rewrite (simple_self_pool_run _ p) by reflexivity.
  unfold pool_getconn, call. cbn [ext trace cls emit].
  destruct (getconn E p s3) as [r s4].
  eexists _, _, _. split; [reflexivity|]. cbn [ext trace cls emit]. rewrite <- !app_assoc.
  split; [reflexivity|]. constructor.
Qed.
(** The [try] block of [base.py] follows the flag protocol; in particular
    it never runs a query on the connection. *)
Lemma base_getconn_validated_flags (self : Base.Wrapper) (w : World E Base.Class) p :
  pooling_enabled self →
  Base._connection_pools (cls w) !! Base.alias self = Some p →
  ∃ r w' evs,
    Base.getconn_validated self w = (r, w') ∧
    trace w' = (trace w ++ evs)%list ∧
    cls w' = cls w ∧
    flag_protocol p evs r.
Proof.
  intros Hen Hp. unfold Base.getconn_validated.
  erewrite bind_ok; [|apply self_pool_existing; [exact Hen|exact Hp]].
  unfold bind at 1, pool_getconn at 1, call at 1.
  destruct (getconn E p (ext w)) as [[c|e] s1].
  2:{ eexists _, _, _. split; [reflexivity|]. split; [reflexivity|]. split; [reflexivity|].
      constructor. }
  unfold bind at 1, hasattr_closed at 1. cbn [ext trace cls emit].
  destruct (conn_closed E c s1) as [flag|] eqn:Hflag.
  - rewrite bool_decide_eq_true_2 by eauto.
    unfold bind at 1, bind at 1, connection_closed at 1. cbn [ext trace cls emit].
    rewrite Hflag. unfold ret at 1.
    destruct flag; cbn [negb].
    + (* closed: back to the pool, one more getconn *)
      erewrite bind_ok; [|apply self_pool_existing; [exact Hen|exact Hp]].
      unfold bind at 1, pool_putconn at 1, call at 1. cbn [ext trace cls emit].
      destruct (putconn E p c true s1) as [[[]|e] s2].
      * erewrite bind_ok; [|apply self_pool_existing; [exact Hen|exact Hp]].
        unfold pool_getconn, call. cbn [ext trace cls emit].
        destruct (getconn E p s2) as [r s3].
        eexists _, _, _. split; [reflexivity|]. cbn [ext trace cls emit]. rewrite <- !app_assoc.
        split; [reflexivity|]. split; [reflexivity|].
        by apply (flag_closed_replaced p c (Some true) r).
      * eexists _, _, _. split; [reflexivity|]. cbn [ext trace cls emit]. rewrite <- !app_assoc.
        split; [reflexivity|]. split; [reflexivity|].
        by apply (flag_closed_discard_failed p c (Some true) e).
    + eexists _, _, _. split; [reflexivity|]. cbn [ext trace cls emit]. rewrite <- !app_assoc.
      split; [reflexivity|]. split; [reflexivity|]. apply flag_open.
  - rewrite bool_decide_eq_false_2 by (intros [? ?]; discriminate).
    unfold bind at 1, ret at 1.
    erewrite bind_ok; [|apply self_pool_existing; [exact Hen|exact Hp]].
    unfold bind at 1, pool_putconn at 1, call at 1. cbn [ext trace cls emit].
    destruct (putconn E p c true s1) as [[[]|e] s2].
    + erewrite bind_ok; [|apply self_pool_existing; [exact Hen|exact Hp]].
      unfold pool_getconn, call. cbn [ext trace cls emit].
      destruct (getconn E p s2) as [r s3].
      eexists _, _, _. split; [reflexivity|]. cbn [ext trace cls emit]. rewrite <- !app_assoc.
      split; [reflexivity|]. split; [reflexivity|].
      by apply (flag_closed_replaced p c None r).
    + eexists _, _, _. split; [reflexivity|]. cbn [ext trace cls emit]. rewrite <- !app_assoc.
      split; [reflexivity|]. split; [reflexivity|].
      by apply (flag_closed_discard_failed p c None e).
Qed.

End Validation.




(** ** The monitor *)

Section Monitor.
Context {E : External}.
Implicit Types (w : World E Base.Class).









Lemma dict_get_set {K V} `{EqDecision K} (d : list (K * V)) k v k' :
  dict_get (dict_set d k v) k' = if decide (k = k') then Some v else dict_get d k'.
Proof.
  induction d as [|[k0 v0] d IH]; cbn.
  - destruct (decide (k = k')); reflexivity.
  - destruct (decide (k0 = k)) as [->|Hne]; cbn.
    + destruct (decide (k = k')); reflexivity.
    + destruct (decide (k0 = k')) as [->|Hne'].
      * destruct (decide (k = k')); [congruence|reflexivity].
      * exact IH.
Qed.



End Monitor.



(** With the threshold in the settings, a failing [resize] on the first
    alias is logged and the second alias is evaluated all the same. *)
Example sweep_goes_on_after_failed_resize :
  let run := Base._check_all_pools (Sim.start Examples.resize_fails Examples.with_threshold) in
  let closed := mkExn "PoolClosed" "the pool is closed" in
  fst run = Ok tt ∧
  trace (snd run) =
    [EvNow 0;
     EvAttr 1%nat "busy" (Ok 9%Q);
     EvLog WARNING (NearingCapacity (Some "default"));
     EvResize 1%nat (VNum 2) (Raise closed);
     EvLog ERROR (ResizeFailed (Some "default") closed);
     EvAttr 2%nat "busy" (Ok 9%Q);
     EvLog WARNING (NearingCapacity (Some "replica"));
     EvResize 2%nat (VNum 2) (Raise closed);
     EvLog ERROR (ResizeFailed (Some "replica") closed)].
Proof. cbn zeta. split; vm_compute; reflexivity. Qed.

(** The wrapper of the examples is the one [__init__] builds. *)
Example init_builds_default_wrapper :
  fst (Base.__init__ (Examples.pooled (Some 2%Q) (Some 10%Q) None None) (Some "default")
         (Sim.start Sim.quiet Base.empty_class)) = Ok Examples.default_wrapper.
Proof. reflexivity. Qed.



(** ** Emergency recovery *)

Section Recovery.
Context {E : External}.
Implicit Types (w : World E Base.Class) (self : Base.Wrapper).

Ltac rebuild_ok :=
  repeat (apply List.Forall_cons; [cbn; eauto|]); apply List.Forall_nil.

(** The [pool] property when the alias has no pool: what it appends to the
    trace and what it does to the registry. A pool that is returned is
    registered, and its settings carry the time read last as
    ["created_at"]. *)
Lemma pool_build self w :
  pooling_enabled self →
  Base._connection_pools (cls w) !! Base.alias self = None →
  ∃ r w' evs,
    Base.pool self w = (r, w') ∧
    trace w' = (trace w ++ evs)%list ∧
    Forall (rebuild_event self) evs ∧
    (∀ a, a ≠ Base.alias self →
          Base._connection_pools (cls w') !! a = Base._connection_pools (cls w) !! a) ∧
    (∀ q, Base._connection_pools (cls w') !! Base.alias self = Some q →
          ∃ args, EvPoolNew args (Ok q) ∈ evs) ∧
    match r with
    | Ok (Some q) =>
        Base._connection_pools (cls w') !! Base.alias self = Some q ∧
        ∃ t d, last evs = Some (EvNow t) ∧
               dict_get (Base._pool_settings (cls w')) (Base.alias self) = Some d ∧
               d !! "created_at" = Some (VTime t)
    | Ok None => False
    | Raise _ => True
    end.
Proof.
  intros Hen Hnone. unfold Base.pool. rewrite (pooling_enabled_guard _ Hen).
  unfold bind at 1, get_cls at 1. rewrite Hnone.
  destruct (Base.py_ne_zero _).
  { eexists (Raise _), w, []. rewrite app_nil_r.
    split; [reflexivity|]. split; [reflexivity|]. split; [rebuild_ok|].
    split; [done|]. split; [intros q Hq; cbn [cls] in Hq; congruence|exact I]. }
  unfold bind at 1, bind at 1, Base.import_psycopg_pool at 1.
  destruct (psycopg_pool_installed E (ext w)).
  2:{ eexists (Raise _), w, []. rewrite app_nil_r.
      split; [reflexivity|]. split; [reflexivity|]. split; [rebuild_ok|].
      split; [done|]. split; [intros q Hq; cbn [cls] in Hq; congruence|exact I]. }
  unfold bind at 1, call at 1.
  destruct (connection_params E (Base.alias self) (ext w)) as [[kw|e] s1].
  2:{ eexists (Raise _), _, [_]. cbn [ext trace cls emit].
      split; [reflexivity|]. split; [reflexivity|]. split; [rebuild_ok|].
      split; [done|]. split; [intros q Hq; cbn [cls] in Hq; congruence|exact I]. }
  unfold bind at 1, ConnectionPool at 1, call at 1. cbn [ext trace cls emit].
  destruct (new_pool E _ s1) as [[q|e] s2] eqn:Hnew.
  2:{ eexists (Raise _), _, [_; _]. cbn [ext trace cls emit]. rewrite <- app_assoc.
      split; [reflexivity|]. split; [reflexivity|]. split; [rebuild_ok|].
      split; [done|]. split; [intros q Hq; cbn [cls] in Hq; congruence|exact I]. }
  unfold bind at 1, modify_cls at 1. unfold bind at 1, datetime_now at 1.
  cbn [ext trace cls emit].
  destruct (clock E s2) as [now s3].
  unfold bind at 1, get_cls at 1.
  cbn [ext trace cls emit Base._pool_settings Base.set_connection_pools].
  destruct (dict_get (Base._pool_settings (cls w)) (Base.alias self)) as [d|] eqn:Hd.
  - unfold modify_cls at 1, bind, get_cls. cbn [ext trace cls emit].
    cbn [Base._connection_pools Base.set_pool_settings Base.set_connection_pools].
    rewrite lookup_insert_eq.
    eexists (Ok (Some q)), _, [_; _; _]. unfold ret. cbn [ext trace cls emit].
    rewrite <- !app_assoc. split; [reflexivity|]. split; [reflexivity|].
    cbn [cls Base._connection_pools Base.set_pool_settings Base.set_connection_pools].
    split; [rebuild_ok|]. split; [|split].
    + intros a Ha. by rewrite lookup_insert_ne.
    + intros q' Hq'. rewrite lookup_insert_eq in Hq'. simplify_eq.
      eexists. rewrite !elem_of_cons. right; left; reflexivity.
    + split; [apply lookup_insert_eq|].
      exists now, (<["created_at" := VTime now]> d). split; [reflexivity|].
      cbn [Base._pool_settings Base.set_pool_settings Base.set_connection_pools].
      rewrite dict_get_set, decide_True by done.
      split; [reflexivity|]. apply lookup_insert_eq.
  - eexists (Raise _), _, [_; _; _]. unfold raise. cbn [ext trace cls emit].
    rewrite <- !app_assoc. split; [reflexivity|]. split; [reflexivity|].
    cbn [cls Base._connection_pools Base.set_pool_settings Base.set_connection_pools].
    split; [rebuild_ok|]. split; [|split].
    + intros a Ha. by rewrite lookup_insert_ne.
    + intros q' Hq'. rewrite lookup_insert_eq in Hq'. simplify_eq.
      eexists. rewrite !elem_of_cons. right; left; reflexivity.
    + exact I.
Qed.
(** [_cleanup_connections] on an alias that has a pool: the pool leaves the
    registry, is closed whatever [close] answers, half a second is slept,
    and one pool access tries to build a new pool. The method ends
    normally in all cases. *)
Lemma cleanup_recovers self w p :
  pooling_enabled self →
  Base._connection_pools (cls w) !! Base.alias self = Some p →
  ∃ b w' evs,
    Base._cleanup_connections self w = (Ok b, w') ∧
    trace w' = (trace w ++ EvPoolClose p (fst (pool_close E p (ext w)))
                        :: EvSleep (1 # 2) :: evs)%list ∧
    Forall (rebuild_event self) evs ∧
    (∀ a, a ≠ Base.alias self →
          Base._connection_pools (cls w') !! a = Base._connection_pools (cls w) !! a) ∧
    (∀ q, Base._connection_pools (cls w') !! Base.alias self = Some q →
          ∃ args, EvPoolNew args (Ok q) ∈ evs).
Proof.
  intros Hen Hp. unfold Base._cleanup_connections.
  rewrite (bind_ok _ _ _ _ _ (pool_existing self w p Hen Hp)).
  unfold try_except at 1.
  rewrite (bind_ok _ _ _ _ _ (pool_existing self w p Hen Hp)).
  unfold bind at 1, modify_cls at 1.
  unfold bind at 1, try_except at 1, pool_close_all at 1, call at 1.
  cbn [ext trace cls emit].
  set (w3 := mkWorld (E:=E) (sleep E (1 # 2) (snd (pool_close E p (ext w))))
               ((trace w ++ [EvPoolClose p (fst (pool_close E p (ext w)))]) ++ [EvSleep (1 # 2)])
               (Base.set_connection_pools (delete (Base.alias self)) (cls w))).
  assert (Hnone : Base._connection_pools (cls w3) !! Base.alias self = None)
    by apply lookup_delete_eq.
  destruct (pool_build self w3 Hen Hnone) as (r & w4 & evs & Hrun & Htr & Hall & Hother & Hnew & Hr).
  assert (Hstep : ∀ b w',
            (match r with
             | Ok _ => (Ok true, w4)
             | Raise e => (Ok false, emit (EvLog ERROR (CleanupFailed e)) w4)
             end = (Ok b, w')) →
            ∃ evs',
              trace w' = (trace w ++ EvPoolClose p (fst (pool_close E p (ext w)))
                                  :: EvSleep (1 # 2) :: evs')%list ∧
              Forall (rebuild_event self) evs' ∧
              (∀ a, a ≠ Base.alias self →
                    Base._connection_pools (cls w') !! a = Base._connection_pools (cls w) !! a) ∧
              (∀ q, Base._connection_pools (cls w') !! Base.alias self = Some q →
                    ∃ args, EvPoolNew args (Ok q) ∈ evs')).
  { intros b w' Hb. destruct r as [o|e]; simplify_eq.
    - exists evs. rewrite Htr. subst w3. cbn [trace]. rewrite <- !app_assoc.
      split; [reflexivity|]. split; [exact Hall|]. split; [|exact Hnew].
      intros a Ha. rewrite (Hother a Ha). by apply lookup_delete_ne.
    - exists (evs ++ [EvLog ERROR (CleanupFailed e)])%list. cbn [ext trace cls emit].
      rewrite Htr. subst w3. cbn [trace]. rewrite <- !app_assoc.
      split; [reflexivity|]. split; [|split].
      + apply Forall_app. split; [exact Hall|]. by repeat constructor.
      + intros a Ha. rewrite (Hother a Ha). by apply lookup_delete_ne.
      + intros q Hq. destruct (Hnew q Hq) as [args Hin]. exists args.
        apply elem_of_app. by left. }
  destruct (pool_close E p (ext w)) as [[[]|e0] s1] eqn:Hclose; cbn [fst snd] in *;
    unfold ret at 1, bind at 1, time_sleep at 1; cbn [ext trace cls emit];
    fold w3; unfold bind at 1; rewrite Hrun;
    (destruct r as [o|e];
     [ destruct (Hstep true w4 eq_refl) as (evs' & ? & ? & ? & ?);
       exists true, w4, evs'; by repeat split
     | destruct (Hstep false _ eq_refl) as (evs' & ? & ? & ? & ?);
       eexists false, _, evs'; unfold bind, logging, ret; by repeat split ]).
Qed.
End Recovery.

(** C8. When the [try] block of the pooled path fails with an error
    carrying "too many clients already", [get_new_connection] removes the
    pool of the alias from the registry, closes it and ignores how [close]
    ended, sleeps half a second, and goes on with [rest]: pool accesses that
    build a pool with the wrapper's own arguments, and at most one
    [getconn], which comes last, is made on the pool then registered for
    the alias and whose outcome is the outcome of the call. Nothing is
    closed or slept on in [rest], so the recovery runs once; when no pool
    can be built the failure propagates. The pools of other aliases stay,
    and a pool registered for the alias afterwards was built in [rest]. *)
Theorem emergency_recovery_once (E : External) (self : Base.Wrapper) (conn_params : Kwargs)
    (w w1 : World E Base.Class) (p : PoolRef) (e : Exn) :
  pooling_enabled self →
  Base._connection_pools (cls w) !! Base.alias self = Some p →
  Base.getconn_validated self w = (Raise e, w1) →
  transient e = true →
  ∃ r w' rest,
    Base.get_new_connection self conn_params w = (r, w') ∧
    trace w' = (trace w1 ++ EvPoolClose p (fst (pool_close E p (ext w1)))
                         :: EvSleep (1 # 2) :: rest)%list ∧
    (∀ a, a ≠ Base.alias self →
          Base._connection_pools (cls w') !! a = Base._connection_pools (cls w) !! a) ∧
    (∀ q, Base._connection_pools (cls w') !! Base.alias self = Some q →
          ∃ args, EvPoolNew args (Ok q) ∈ rest) ∧
    ((∃ pre q, rest = (pre ++ [EvGetconn q r])%list ∧
               Forall (rebuild_event self) pre ∧
               Base._connection_pools (cls w') !! Base.alias self = Some q) ∨
     (∃ e', r = Raise e' ∧ Forall (rebuild_event self) rest)).
Proof.
  intros Hen Hp Htry Ht.
  assert (Hcls : cls w1 = cls w).
  { destruct (base_getconn_validated_flags self w p Hen Hp) as (r0 & w0 & evs0 & Hrun0 & _ & Hc & _).
    rewrite Htry in Hrun0. by simplify_eq. }
  assert (Hp1 : Base._connection_pools (cls w1) !! Base.alias self = Some p) by by rewrite Hcls.
  unfold Base.get_new_connection.
  rewrite (bind_ok _ _ _ _ _ (pool_existing self w p Hen Hp)).
  unfold try_except. rewrite Htry, Ht.
  destruct (cleanup_recovers self w1 p Hen Hp1) as (b & w2 & evs & Hclean & Htr & Hall & Hother & Hnew).
  rewrite (bind_ok _ _ _ _ _ Hclean).
  destruct (Base._connection_pools (cls w2) !! Base.alias self) as [q|] eqn:Hq.
  - (* the cleanup registered a new pool *)
    rewrite (bind_ok _ _ _ _ _ (self_pool_existing self w2 q Hen Hq)).
    unfold pool_getconn, call. destruct (getconn E q (ext w2)) as [r s].
    exists r, (mkWorld s (trace w2 ++ [EvGetconn q r]) (cls w2)), (evs ++ [EvGetconn q r])%list.
    cbn [ext trace cls]. split; [reflexivity|]. split; [|split; [|split]].
    + rewrite Htr, <- !app_assoc. reflexivity.
    + intros a Ha. rewrite (Hother a Ha). by rewrite Hcls.
    + intros q' Hq'. rewrite Hq in Hq'. destruct (Hnew q' Hq') as [args Hin]. exists args.
      apply elem_of_app. by left.
    + left. by exists evs, q.
  - (* it did not: the pool access before [getconn] tries once more *)
    destruct (pool_build self w2 Hen Hq) as (r2 & w3 & evs2 & Hrun2 & Htr2 & Hall2 & Hother2 & Hnew2 & Hr2).
    unfold bind at 1, Base.self_pool at 1, bind at 1. rewrite Hrun2.
    destruct r2 as [[q|]|e']; [| done |].
    + unfold ret at 1, pool_getconn, call. destruct (getconn E q (ext w3)) as [r s].
      exists r, (mkWorld s (trace w3 ++ [EvGetconn q r]) (cls w3)),
             ((evs ++ evs2) ++ [EvGetconn q r])%list.
      cbn [ext trace cls]. split; [reflexivity|]. split; [|split; [|split]].
      * rewrite Htr2, Htr, <- !app_assoc. reflexivity.
      * intros a Ha. rewrite (Hother2 a Ha), (Hother a Ha). by rewrite Hcls.
      * intros q' Hq'. destruct (Hnew2 q' Hq') as [args Hin]. exists args.
        rewrite !elem_of_app. left; by right.
      * left. exists (evs ++ evs2)%list, q. split; [reflexivity|]. split; [|apply Hr2].
        apply Forall_app. by split.
    + exists (Raise e'), w3, (evs ++ evs2)%list.
      split; [reflexivity|]. split; [|split; [|split]].
      * rewrite Htr2, Htr, <- !app_assoc. reflexivity.
      * intros a Ha. rewrite (Hother2 a Ha), (Hother a Ha). by rewrite Hcls.
      * intros q' Hq'. destruct (Hnew2 q' Hq') as [args Hin]. exists args.
        rewrite !elem_of_app. by right.
      * right. exists e'. split; [reflexivity|]. apply Forall_app. by split.
Qed.

Lemma emergency_recovery_once_witness :
  let run := Base.get_new_connection Examples.default_wrapper ∅
               (Sim.start Examples.server_full Examples.one_pool) in
  fst run = Ok 8%nat ∧
  slept (trace (snd run)) = [(1 # 2)%Q] ∧
  Base._connection_pools (cls (snd run)) !! Some "default" = Some 2%nat.
Proof.
  destruct (emergency_recovery_once Sim.env Examples.default_wrapper ∅
              (Sim.start Examples.server_full Examples.one_pool)
              (snd (Base.getconn_validated Examples.default_wrapper
                      (Sim.start Examples.server_full Examples.one_pool)))
              1%nat Sim.exhausted)
    as (r & w' & rest & Hrun & _ & _ & _ & _).
  - split; [discriminate | reflexivity].
  - reflexivity.
  - vm_compute. reflexivity.
  - reflexivity.
  - cbn zeta. rewrite Hrun. cbn [fst snd].
    assert (Hr : r = Ok 8%nat).
    { apply (f_equal fst) in Hrun. vm_compute in Hrun. by simplify_eq. }
    assert (Hs : slept (trace w') = [(1 # 2)%Q]).
    { apply (f_equal (λ x, slept (trace (snd x)))) in Hrun. vm_compute in Hrun.
      by simplify_eq. }
    assert (Hq : Base._connection_pools (cls w') !! Some "default" = Some 2%nat).
    { apply (f_equal (λ x, Base._connection_pools (cls (snd x)) !! Some "default")) in Hrun.
      vm_compute in Hrun. by simplify_eq. }
    by repeat split.
Defined.

(** * Further properties *)

(** ** What a method appends to the trace *)

Section Emits.
Context {E : External} {C : Type}.
Implicit Types (allowed : Event → bool).

Lemma emits_ret {A} allowed (a : A) : emits (E:=E) (C:=C) allowed (ret a).
Proof. intros w. exists []. by rewrite app_nil_r. Qed.

Lemma emits_raise {A} allowed e : emits (E:=E) (C:=C) (A:=A) allowed (raise e).
Proof. intros w. exists []. by rewrite app_nil_r. Qed.

Lemma emits_bind {A B} allowed (m : M E C A) (k : A → M E C B) :
  emits allowed m → (∀ a, emits allowed (k a)) → emits allowed (bind m k).
Proof.
  intros Hm Hk w. destruct (Hm w) as (evs1 & Htr1 & Hall1).
  unfold bind. destruct (m w) as [[a|e] w1]; cbn [snd] in *.
  - destruct (Hk a w1) as (evs2 & Htr2 & Hall2).
    exists (evs1 ++ evs2)%list. rewrite Htr2, Htr1, <- app_assoc.
    split; [reflexivity|]. rewrite forallb_app. by rewrite Hall1, Hall2.
  - by exists evs1.
Qed.

Lemma emits_try_except {A} allowed (body : M E C A) handler :
  emits allowed body → (∀ e, emits allowed (handler e)) → emits allowed (try_except body handler).
Proof.
  intros Hm Hk w. destruct (Hm w) as (evs1 & Htr1 & Hall1).
  unfold try_except. destruct (body w) as [[a|e] w1]; cbn [snd] in *.
  - by exists evs1.
  - destruct (Hk e w1) as (evs2 & Htr2 & Hall2).
    exists (evs1 ++ evs2)%list. rewrite Htr2, Htr1, <- app_assoc.
    split; [reflexivity|]. rewrite forallb_app. by rewrite Hall1, Hall2.
Qed.

Lemma emits_call {A} allowed (f : Ext E → result A * Ext E) ev :
  (∀ r, allowed (ev r) = true) → emits (C:=C) allowed (call f ev).
Proof.
  intros Hev w. unfold call. destruct (f (ext w)) as [r s].
  exists [ev r]. cbn. by rewrite Hev.
Qed.

Lemma emits_read {A} allowed (f : Ext E → result A) ev :
  (∀ r, allowed (ev r) = true) → emits (C:=C) allowed (read f ev).
Proof. intros Hev w. exists [ev (f (ext w))]. cbn. by rewrite Hev. Qed.

Lemma emits_get_cls allowed : emits (E:=E) (C:=C) allowed get_cls.
Proof. intros w. exists []. by rewrite app_nil_r. Qed.

Lemma emits_modify_cls allowed f : emits (E:=E) (C:=C) allowed (modify_cls f).
Proof. intros w. exists []. cbn. by rewrite app_nil_r. Qed.

Lemma emits_logging allowed level msg :
  allowed (EvLog level msg) = true → emits (E:=E) (C:=C) allowed (logging level msg).
Proof. intros Hev w. exists [EvLog level msg]. cbn. by rewrite Hev. Qed.

Lemma emits_time_sleep allowed d :
  allowed (EvSleep d) = true → emits (E:=E) (C:=C) allowed (time_sleep d).
Proof. intros Hev w. exists [EvSleep d]. cbn. by rewrite Hev. Qed.

Lemma emits_datetime_now allowed :
  (∀ t, allowed (EvNow t) = true) → emits (E:=E) (C:=C) allowed datetime_now.
Proof.
  intros Hev w. unfold datetime_now. destruct (clock E (ext w)) as [t s].
  exists [EvNow t]. cbn. by rewrite Hev.
Qed.

Lemma emits_hasattr_closed allowed c :
  (∀ r, allowed (EvClosed c r) = true) → emits (E:=E) (C:=C) allowed (hasattr_closed c).
Proof. intros Hev w. exists [EvClosed c (conn_closed E c (ext w))]. cbn. by rewrite Hev. Qed.

Lemma emits_connection_closed allowed c :
  (∀ r, allowed (EvClosed c r) = true) → emits (E:=E) (C:=C) allowed (connection_closed c).
Proof. intros Hev w. exists [EvClosed c (conn_closed E c (ext w))]. cbn. by rewrite Hev. Qed.

Lemma emits_for_each {A} allowed (l : list A) (body : A → M E C unit) :
  (∀ x, emits allowed (body x)) → emits allowed (for_each l body).
Proof.
  intros Hbody. induction l as [|x l IH]; cbn [for_each].
  - apply emits_ret.
  - apply emits_bind; [apply Hbody | intros _; exact IH].
Qed.

Lemma emits_weaken {A} allowed allowed' (m : M E C A) :
  (∀ ev, allowed ev = true → allowed' ev = true) → emits allowed m → emits allowed' m.
Proof.
  intros Himp Hm w. destruct (Hm w) as (evs & Htr & Hall). exists evs. split; [exact Htr|].
  apply forallb_forall. intros ev Hin. apply Himp.
  by apply (proj1 (forallb_forall allowed evs) Hall).
Qed.
End Emits.

(** One structural step of a proof that a method only emits allowed events. *)
Ltac emits_side :=
  intros;
  first [ reflexivity
        | match goal with
          | H : ∀ ev, _ → _ → _ ev = true |- _ => apply H; reflexivity
          | H : ∀ ev, _ → _ ev = true |- _ => apply H; reflexivity
          end
        | eauto ].

Ltac emits_step :=
  match goal with
  | H : emits ?al ?m |- emits ?al ?m => exact H
  | H : ∀ x, emits ?al (?f x) |- emits ?al (?f _) => apply H
  | |- emits _ (bind _ _) => apply emits_bind; [|intros ?]
  | |- emits _ (try_except _ _) => apply emits_try_except; [|intros ?]
  | |- emits _ (ret _) => apply emits_ret
  | |- emits _ (raise _) => apply emits_raise
  | |- emits _ get_cls => apply emits_get_cls
  | |- emits _ (modify_cls _) => apply emits_modify_cls
  | |- emits _ (logging _ _) => apply emits_logging; emits_side
  | |- emits _ (time_sleep _) => apply emits_time_sleep; emits_side
  | |- emits _ datetime_now => apply emits_datetime_now; emits_side
  | |- emits _ (hasattr_closed _) => apply emits_hasattr_closed; emits_side
  | |- emits _ (connection_closed _) => apply emits_connection_closed; emits_side
  | |- emits _ (call _ _) => apply emits_call; emits_side
  | |- emits _ (read _ _) => apply emits_read; emits_side
  | |- emits _ (getitem _ _) => unfold getitem
  | |- emits _ (py_mul _ _) => unfold py_mul
  | |- emits _ (datetime_sub _ _) => unfold datetime_sub
  | |- emits _ (timedelta_seconds _) => unfold timedelta_seconds
  | |- emits _ (for_each _ _) => apply emits_for_each; intros [? ?]
  | |- emits _ (match ?x with _ => _ end) => destruct x
  end.

Ltac emits_auto :=
  unfold super_get_new_connection, ConnectionPool, pool_getconn, pool_putconn,
    pool_close_all, pool_resize, pool_read, connection_close, cursor_execute_select_1;
  cbv zeta; repeat emits_step.

Section EmitsBase.
Context {E : External}.

Lemma emits_import allowed : emits (E:=E) allowed Base.import_psycopg_pool.
Proof.
  intros w. exists []. unfold Base.import_psycopg_pool.
  destruct (psycopg_pool_installed E (ext w)); by rewrite app_nil_r.
Qed.

(** A pool access asks for the connection parameters, constructs a pool and
    reads the clock, at most. *)
Lemma pool_emits allowed (self : Base.Wrapper) :
  (∀ r, allowed (EvParams r) = true) →
  (∀ args r, allowed (EvPoolNew args r) = true) →
  (∀ t, allowed (EvNow t) = true) →
  emits (E:=E) allowed (Base.pool self).
Proof.
  intros Hp Hn Ht. unfold Base.pool. cbv zeta.
  destruct (_ || _); [apply emits_ret|].
  apply emits_bind; [apply emits_get_cls|intros c].
  apply emits_bind.
  - destruct (_ !! _); [apply emits_ret|].
    destruct (Base.py_ne_zero _); [apply emits_raise|].
    apply emits_bind; [apply emits_import|intros _].
    apply emits_bind; [by apply emits_call|intros kw].
    apply emits_bind; [by apply emits_call|intros q].
    apply emits_bind; [apply emits_modify_cls|intros _].
    apply emits_bind; [by apply emits_datetime_now|intros now].
    apply emits_bind; [apply emits_get_cls|intros c'].
    destruct (dict_get _ _); [apply emits_modify_cls|apply emits_raise].
  - intros _. apply emits_bind; [apply emits_get_cls|intros c'].
    destruct (_ !! _); [apply emits_ret|apply emits_raise].
Qed.

Lemma self_pool_emits allowed (self : Base.Wrapper) :
  emits (E:=E) allowed (Base.pool self) → emits (E:=E) allowed (Base.self_pool self).
Proof.
  intros Hpool. unfold Base.self_pool. apply emits_bind; [exact Hpool|intros [p|]].
  - apply emits_ret.
  - apply emits_raise.
Qed.
End EmitsBase.

Section Footprint.
Local Set Default Proof Using "All".
Context {E : External}.
Variable allowed : Event → bool.
Hypothesis allowed_all :
  ∀ ev, is_connect ev = false → is_thread_start ev = false → allowed ev = true.

Lemma pool_allowed (self : Base.Wrapper) : emits (E:=E) allowed (Base.pool self).
Proof. apply pool_emits; intros; by apply allowed_all. Qed.

Lemma self_pool_allowed (self : Base.Wrapper) : emits (E:=E) allowed (Base.self_pool self).
Proof. apply self_pool_emits, pool_allowed. Qed.

Lemma getconn_validated_allowed (self : Base.Wrapper) :
  emits (E:=E) allowed (Base.getconn_validated self).
Proof.
  pose proof (self_pool_allowed self). unfold Base.getconn_validated. emits_auto.
Qed.

Lemma cleanup_allowed (self : Base.Wrapper) :
  emits (E:=E) allowed (Base._cleanup_connections self).
Proof.
  pose proof (pool_allowed self). unfold Base._cleanup_connections. emits_auto.
Qed.

(** The pooled branch of [get_new_connection]. *)
Lemma pooled_branch_allowed (self : Base.Wrapper) :
  emits (E:=E) allowed
    (try_except (Base.getconn_validated self)
       (fun e =>
          if transient e then
            _ <- Base._cleanup_connections self ;;
            p <- Base.self_pool self ;;
            pool_getconn p
          else raise e)).
Proof.
  pose proof (self_pool_allowed self). pose proof (getconn_validated_allowed self).
  pose proof (cleanup_allowed self). emits_auto.
Qed.








Hypothesis allowed_connect : ∀ params r, allowed (EvConnect params r) = true.


End Footprint.

(** ** What a method keeps of the class attributes *)

Section Keeps.
Context {E : External} {C : Type}.
Implicit Types (I : C → Prop).

Lemma keeps_ret {A} I (a : A) : keeps (E:=E) I (ret a).
Proof. by intros w. Qed.

Lemma keeps_raise {A} I e : keeps (E:=E) (A:=A) I (raise e).
Proof. by intros w. Qed.

Lemma keeps_bind {A B} I (m : M E C A) (k : A → M E C B) :
  keeps I m → (∀ a, keeps I (k a)) → keeps I (bind m k).
Proof.
  intros Hm Hk w Hw. specialize (Hm w Hw). unfold bind.
  destruct (m w) as [[a|e] w1]; cbn [snd] in *; [by apply Hk | exact Hm].
Qed.

Lemma keeps_try_except {A} I (body : M E C A) handler :
  keeps I body → (∀ e, keeps I (handler e)) → keeps I (try_except body handler).
Proof.
  intros Hm Hk w Hw. specialize (Hm w Hw). unfold try_except.
  destruct (body w) as [[a|e] w1]; cbn [snd] in *; [exact Hm | by apply Hk].
Qed.

Lemma keeps_call {A} I (f : Ext E → result A * Ext E) ev : keeps (C:=C) I (call f ev).
Proof. intros w Hw. unfold call. by destruct (f (ext w)). Qed.

Lemma keeps_read {A} I (f : Ext E → result A) ev : keeps (C:=C) I (read f ev).
Proof. by intros w Hw. Qed.

Lemma keeps_get_cls I : keeps (E:=E) I get_cls.
Proof. by intros w. Qed.

Lemma keeps_modify_cls I (f : C → C) : (∀ c, I c → I (f c)) → keeps (E:=E) I (modify_cls f).
Proof. intros Hf w Hw. by apply Hf. Qed.

Lemma keeps_logging I level msg : keeps (E:=E) I (logging level msg).
Proof. by intros w. Qed.

Lemma keeps_time_sleep I d : keeps (E:=E) I (time_sleep d).
Proof. by intros w. Qed.

Lemma keeps_datetime_now I : keeps (E:=E) I datetime_now.
Proof. intros w Hw. unfold datetime_now. by destruct (clock E (ext w)). Qed.

Lemma keeps_hasattr_closed I c : keeps (E:=E) I (hasattr_closed c).
Proof. by intros w. Qed.

Lemma keeps_connection_closed I c : keeps (E:=E) I (connection_closed c).
Proof. by intros w. Qed.

Lemma keeps_for_each {A} I (l : list A) (body : A → M E C unit) :
  (∀ x, keeps I (body x)) → keeps I (for_each l body).
Proof.
  intros Hbody. induction l as [|x l IH]; cbn [for_each].
  - apply keeps_ret.
  - apply keeps_bind; [apply Hbody | intros _; exact IH].
Qed.
End Keeps.

Ltac keeps_side :=
  intros;
  first [ assumption
        | match goal with
          | H : ∀ f c, _ → _ |- _ => apply H; assumption
          end
        | (cbn; assumption) ].

Ltac keeps_step :=
  match goal with
  | H : keeps ?I ?m |- keeps ?I ?m => exact H
  | H : ∀ x, keeps ?I (?f x) |- keeps ?I (?f _) => apply H
  | |- keeps _ (bind _ _) => apply keeps_bind; [|intros ?]
  | |- keeps _ (try_except _ _) => apply keeps_try_except; [|intros ?]
  | |- keeps _ (ret _) => apply keeps_ret
  | |- keeps _ (raise _) => apply keeps_raise
  | |- keeps _ get_cls => apply keeps_get_cls
  | |- keeps _ (modify_cls _) => apply keeps_modify_cls; keeps_side
  | |- keeps _ (logging _ _) => apply keeps_logging
  | |- keeps _ (time_sleep _) => apply keeps_time_sleep
  | |- keeps _ datetime_now => apply keeps_datetime_now
  | |- keeps _ (hasattr_closed _) => apply keeps_hasattr_closed
  | |- keeps _ (connection_closed _) => apply keeps_connection_closed
  | |- keeps _ (call _ _) => apply keeps_call
  | |- keeps _ (read _ _) => apply keeps_read
  | |- keeps _ (getitem _ _) => unfold getitem
  | |- keeps _ (py_mul _ _) => unfold py_mul
  | |- keeps _ (datetime_sub _ _) => unfold datetime_sub
  | |- keeps _ (timedelta_seconds _) => unfold timedelta_seconds
  | |- keeps _ (for_each _ _) => apply keeps_for_each; intros [? ?]
  | |- keeps _ (match ?x with _ => _ end) => destruct x
  end.

Ltac keeps_auto :=
  unfold super_get_new_connection, ConnectionPool, pool_getconn, pool_putconn,
    pool_close_all, pool_resize, pool_read, connection_close, cursor_execute_select_1;
  cbv zeta; repeat keeps_step.

(** A property of the class attributes that pool accesses keep, and that
    does not depend on the registry of pools, is kept by every method. *)
Section ClassInvariant.
Local Set Default Proof Using "All".
Context {E : External}.
Variable I : Base.Class → Prop.
Hypothesis pool_keeps : ∀ self, keeps (E:=E) I (Base.pool self).
Hypothesis registry_free : ∀ f c, I c → I (Base.set_connection_pools f c).












End ClassInvariant.

(** ** Two invariants of the class *)

Section Invariants.
Context {E : External}.
Implicit Types (w : World E Base.Class).

Lemma import_keeps (I : Base.Class → Prop) : keeps (E:=E) I Base.import_psycopg_pool.
Proof.
  intros w Hw. unfold Base.import_psycopg_pool. by destruct (psycopg_pool_installed E (ext w)).
Qed.










End Invariants.

(** ** The monitor in the worlds a process can reach *)



Section SweepRaises.
Context {E : External}.

End SweepRaises.



(** ** What the methods never call *)

Section NeverCalls.
Context {E : External}.

Lemma pool_never_none (self : Base.Wrapper) (w w' : World E Base.Class) :
  pooling_enabled self → Base.pool self w ≠ (Ok None, w').
Proof.
  intros Hen Hrun. unfold Base.pool in Hrun. rewrite (pooling_enabled_guard _ Hen) in Hrun.
  apply bind_inv in Hrun as [(c & w0 & _ & Hrun)|(e & _ & ?)]; [|done].
  apply bind_inv in Hrun as [([] & w1 & _ & Hrun)|(e & _ & ?)]; [|done].
  revert Hrun. unfold bind, get_cls.
  destruct (Base._connection_pools (cls w1) !! Base.alias self); unfold ret, raise;
    intros; simplify_eq.
Qed.

Lemma connects_app evs evs' : connects (evs ++ evs') = (connects evs + connects evs')%nat.
Proof.
  induction evs as [|ev evs IH]; [reflexivity|].
  destruct ev; cbn; rewrite ?IH; reflexivity.
Qed.

Lemma connects_none evs :
  forallb (λ ev, negb (is_connect ev)) evs = true → connects evs = 0%nat.
Proof.
  induction evs as [|ev evs IH]; [reflexivity|].
  cbn [forallb]. intros [Hev Hall]%andb_true_iff.
  destruct ev; try discriminate Hev; by apply IH.
Qed.

Lemma retry_emits_no_pool_call budget params count d :
  emits (E:=E) (C:=Base.Class) (λ ev, negb (is_pool_call ev))
    (Base.connect_with_retry budget params count d).
Proof.
  revert count d. induction budget as [|budget IH]; intros count d;
    rewrite connect_with_retry_unfold;
    (apply emits_try_except; [emits_auto|intros e]);
    (destruct (transient e && _); [|apply emits_raise]).
  - apply emits_raise.
  - apply emits_bind; [by apply emits_logging|intros _].
    apply emits_bind; [by apply emits_time_sleep|intros _].
    apply IH.
Qed.
End NeverCalls.

(** X3. With pooling on, [get_new_connection] never opens a raw connection
    of its own, whatever the pool and the emergency recovery do: the
    number of raw connects in the trace does not change. *)
Theorem pooled_never_connects (E : External) (self : Base.Wrapper) (conn_params : Kwargs)
    (w : World E Base.Class) :
  pooling_enabled self →
  connects (trace (snd (Base.get_new_connection self conn_params w))) = connects (trace w).
Proof.
  intros Hen.
  assert (Hal : ∀ ev, is_connect ev = false → is_thread_start ev = false →
                      negb (is_connect ev) = true) by (by intros ev -> _).
  destruct (pool_allowed _ Hal self w) as (evs1 & Htr1 & Hall1).
  unfold Base.get_new_connection. unfold bind at 1.
  destruct (Base.pool self w) as [[[p|]|e] w1] eqn:Hpool; cbn [snd] in *.
  - destruct (pooled_branch_allowed _ Hal self w1) as (evs2 & Htr2 & Hall2).
    rewrite Htr2, Htr1, !connects_app, (connects_none _ Hall1), (connects_none _ Hall2). lia.
  - by destruct (pool_never_none self w w1 Hen).
  - rewrite Htr1, connects_app, (connects_none _ Hall1). lia.
Qed.

Lemma pooled_never_connects_witness :
  connects (trace (snd (Base.get_new_connection Examples.default_wrapper ∅
                          (Sim.start Examples.server_full Examples.one_pool)))) = 0%nat.
Proof.
  rewrite (pooled_never_connects Sim.env Examples.default_wrapper ∅
             (Sim.start Examples.server_full Examples.one_pool)).
  - reflexivity.
  - split; [discriminate | reflexivity].
Defined.

(** X4. Without pooling, [get_new_connection] makes no call to any pool: it
    asks for no parameters, constructs nothing, and acquires, returns,
    closes, resizes or inspects no pool; nor does it change the class
    attributes. *)
Theorem unpooled_never_touches_pools (E : External) (self : Base.Wrapper)
    (conn_params : Kwargs) (w : World E Base.Class) :
  ¬ pooling_enabled self →
  ∃ evs,
    trace (snd (Base.get_new_connection self conn_params w)) = (trace w ++ evs)%list ∧
    forallb (λ ev, negb (is_pool_call ev)) evs = true ∧
    cls (snd (Base.get_new_connection self conn_params w)) = cls w.
Proof.
  intros Hoff. unfold Base.get_new_connection.
  rewrite (bind_ok _ _ _ _ _ (pool_disabled self w Hoff)).
  destruct (retry_emits_no_pool_call Base.max_retries conn_params 0 (1 # 100) w)
    as (evs & Htr & Hall).
  exists evs. split; [exact Htr|]. split; [exact Hall|].
  destruct (connect_with_retry_spec Base.max_retries conn_params 0 (1 # 100) w)
    as (fails & final & w' & Hrun & _ & Hcls & _); [unfold Base.max_retries; lia ..|].
  by rewrite Hrun.
Qed.

Lemma unpooled_never_touches_pools_witness :
  Base._connection_pools
    (cls (snd (Base.get_new_connection Examples.unpooled_wrapper ∅
                 (Sim.start Examples.three_refusals Examples.one_pool))))
  = {[ Some "default" := 1%nat ]}.
Proof.
  destruct (unpooled_never_touches_pools Sim.env Examples.unpooled_wrapper ∅
              (Sim.start Examples.three_refusals Examples.one_pool)) as (evs & _ & _ & Hcls).
  - intros [_ H]. discriminate H.
  - rewrite Hcls. reflexivity.
Defined.

Section SleepBound.
Context {E : External}.

Lemma total_backoff_bounded n :
  (n ≤ 10)%nat → (total (backoff_delays n (1 # 100)) <= 1023 # 100)%Q.
Proof.
  intros Hn.
  do 11 (destruct n as [|n]; [vm_compute; discriminate|]). lia.
Qed.
End SleepBound.

(** X5. Without pooling, the retries of [get_new_connection] sleep 10.23
    seconds in total at most (0.01 + 0.02 + ... + 5.12), however the
    database answers. *)
Theorem retry_sleep_bounded (E : External) (self : Base.Wrapper) (conn_params : Kwargs)
    (w : World E Base.Class) :
  ¬ pooling_enabled self →
  ∃ evs,
    trace (snd (Base.get_new_connection self conn_params w)) = (trace w ++ evs)%list ∧
    (total (slept evs) <= 1023 # 100)%Q.
Proof.
  intros Hoff. unfold Base.get_new_connection.
  rewrite (bind_ok _ _ _ _ _ (pool_disabled self w Hoff)).
  destruct (connect_with_retry_spec Base.max_retries conn_params 0 (1 # 100) w)
    as (fails & final & w' & Hrun & Htr & _ & Hlen & _); [unfold Base.max_retries; lia ..|].
  rewrite Hrun. eexists. split; [exact Htr|].
  rewrite slept_retry_trace. apply total_backoff_bounded.
  unfold Base.max_retries in Hlen. lia.
Qed.

Lemma retry_sleep_bounded_witness :
  (total (slept (trace (snd (Base.get_new_connection Examples.unpooled_wrapper ∅
                               (Sim.start Examples.three_refusals Base.empty_class)))))
   <= 1023 # 100)%Q.
Proof.
  destruct (retry_sleep_bounded Sim.env Examples.unpooled_wrapper ∅
              (Sim.start Examples.three_refusals Base.empty_class)) as (evs & Htr & Hle).
  - intros [_ H]. discriminate H.
  - rewrite Htr. exact Hle.
Defined.

(** X6. With pooling off for the wrapper, [close_pool], [reset_pool], the
    emergency cleanup and the status report do nothing: they call no
    collaborator and change no attribute, also when a pool is registered
    for the alias; they return [None], [False], [False] and the report
    [{"status": "disabled"}]. *)
Theorem disabled_methods_do_nothing (E : External) (self : Base.Wrapper)
    (w : World E Base.Class) :
  ¬ pooling_enabled self →
  Base.close_pool self w = (Ok tt, w) ∧
  Base.reset_pool self w = (Ok false, w) ∧
  Base._cleanup_connections self w = (Ok false, w) ∧
  Base.get_pool_status self w = (Ok [("status", VStr "disabled")], w).
Proof.
  intros Hoff.
  unfold Base.close_pool, Base.reset_pool, Base._cleanup_connections, Base.get_pool_status.
  by rewrite !(bind_ok _ _ _ _ _ (pool_disabled self w Hoff)).
Qed.

Lemma disabled_methods_do_nothing_witness :
  Base.close_pool Examples.unpooled_wrapper (Sim.start Sim.quiet Examples.one_pool)
  = (Ok tt, Sim.start Sim.quiet Examples.one_pool).
Proof.
  destruct (disabled_methods_do_nothing Sim.env Examples.unpooled_wrapper
              (Sim.start Sim.quiet Examples.one_pool)) as (H & _).
  - intros [_ H]. discriminate H.
  - exact H.
Defined.

(** ** Building, closing and resetting a pool *)



(** X8. With pooling on and a pool registered for the alias, [close_pool]
    never raises. It closes that pool once; if [close] returns, the pool is
    removed from the registry, so that the next pool access builds a new
    one; if [close] raises, the error is logged and the pool stays
    registered. *)
Theorem close_pool_outcomes (E : External) (self : Base.Wrapper) (w : World E Base.Class)
    (p : PoolRef) :
  pooling_enabled self →
  Base._connection_pools (cls w) !! Base.alias self = Some p →
  ∃ w',
    Base.close_pool self w = (Ok tt, w') ∧
    ext w' = snd (pool_close E p (ext w)) ∧
    match fst (pool_close E p (ext w)) with
    | Ok _ =>
        trace w' = (trace w ++ [EvPoolClose p (Ok tt)])%list ∧
        cls w' = Base.set_connection_pools (delete (Base.alias self)) (cls w) ∧
        Base._connection_pools (cls w') !! Base.alias self = None
    | Raise e =>
        trace w' = (trace w ++ [EvPoolClose p (Raise e);
                                EvLog ERROR (ClosePoolFailed (Base.alias self) e)])%list ∧
        cls w' = cls w
    end.
Proof.
  intros Hen Hp. unfold Base.close_pool.
  rewrite (bind_ok _ _ _ _ _ (pool_existing self w p Hen Hp)).
  unfold bind at 1, get_cls at 1. rewrite Hp.
  unfold try_except, bind at 1, bind at 1, get_cls at 1. rewrite Hp.
  unfold ret at 1, bind at 1, pool_close_all, call.
  destruct (pool_close E p (ext w)) as [[[]|e] s]; cbn [fst snd].
  - unfold bind, get_cls, modify_cls. cbn [ext trace cls]. rewrite Hp.
    eexists. split; [reflexivity|]. split; [reflexivity|]. cbn [ext trace cls].
    split; [reflexivity|]. split; [reflexivity|]. apply lookup_delete_eq.
  - eexists. split; [reflexivity|]. split; [reflexivity|]. cbn [ext trace cls emit].
    rewrite <- app_assoc. by split.
Qed.

Lemma close_pool_outcomes_witness :
  let run := Base.close_pool Examples.default_wrapper
               (Sim.start Examples.close_fails Examples.one_pool) in
  fst run = Ok tt ∧
  Base._connection_pools (cls (snd run)) !! Some "default" = Some 1%nat.
Proof.
  destruct (close_pool_outcomes Sim.env Examples.default_wrapper
              (Sim.start Examples.close_fails Examples.one_pool) 1%nat)
    as (w' & Hrun & _ & Hout).
  - split; [discriminate | reflexivity].
  - reflexivity.
  - cbn zeta. rewrite Hrun. cbn [fst snd]. split; [reflexivity|].
    cbn in Hout. destruct Hout as [_ ->]. reflexivity.
Defined.

(** X9. With pooling on and a pool registered for the alias, [reset_pool]
    never raises and never changes the class attributes. It calls [resize]
    once, with the wrapper's own [min_connections], and returns [True]
    exactly when that call returns; a failure is logged and gives [False]. *)
Theorem reset_pool_outcomes (E : External) (self : Base.Wrapper) (w : World E Base.Class)
    (p : PoolRef) :
  pooling_enabled self →
  Base._connection_pools (cls w) !! Base.alias self = Some p →
  let target := VNum (Base.min_connections self) in
  ∃ w',
    ext w' = snd (resize E p target (ext w)) ∧
    cls w' = cls w ∧
    match fst (resize E p target (ext w)) with
    | Ok _ =>
        Base.reset_pool self w = (Ok true, w') ∧
        trace w' = (trace w ++ [EvResize p target (Ok tt)])%list
    | Raise e =>
        Base.reset_pool self w = (Ok false, w') ∧
        trace w' = (trace w ++ [EvResize p target (Raise e); EvLog ERROR (ResizeError e)])%list
    end.
Proof.
  intros Hen Hp target. unfold Base.reset_pool.
  rewrite (bind_ok _ _ _ _ _ (pool_existing self w p Hen Hp)).
  unfold try_except.
  rewrite (bind_ok _ _ _ _ _ (self_pool_existing self w p Hen Hp)).
  unfold bind, pool_resize, call, logging, ret, emit. fold target. cbv beta.
  destruct (resize E p target (ext w)) as [[[]|e] s]; cbn [fst snd ext trace cls].
  - exists (mkWorld s (trace w ++ [EvResize p target (Ok tt)]) (cls w)).
    split; [reflexivity|]. split; [reflexivity|]. by split.
  - exists (mkWorld s (trace w ++ [EvResize p target (Raise e); EvLog ERROR (ResizeError e)])
              (cls w)).
    split; [reflexivity|]. split; [reflexivity|]. split; [|reflexivity].
    by rewrite <- app_assoc.
Qed.

Lemma reset_pool_outcomes_witness :
  Base.reset_pool Examples.default_wrapper (Sim.start Examples.resize_fails Examples.one_pool)
  = (Ok false,
     mkWorld (Examples.resize_fails : Ext Sim.env)
       [EvResize 1%nat (VNum 2) (Raise (mkExn "PoolClosed" "the pool is closed"));
        EvLog ERROR (ResizeError (mkExn "PoolClosed" "the pool is closed"))]
       Examples.one_pool).
Proof.
  destruct (reset_pool_outcomes Sim.env Examples.default_wrapper
              (Sim.start Examples.resize_fails Examples.one_pool) 1%nat)
    as (w' & Hext & Hcls & Hout).
  - split; [discriminate | reflexivity].
  - reflexivity.
  - cbn in Hout. destruct Hout as [Hrun Htr]. rewrite Hrun. f_equal.
    destruct w' as [s tr c]. cbn in Hext, Hcls, Htr. by subst.
Defined.

(** ** Closing a connection *)

Section ClosePath.
Context {E : External}.
Implicit Types (self : Base.Wrapper).

Lemma on_class_pool_existing self s tr c0 (conn : option Conn) p :
  pooling_enabled self →
  Base._connection_pools c0 !! Base.alias self = Some p →
  Base.on_class (E:=E) (Base.pool self) (mkWorld s tr (c0, conn))
  = (Ok (Some p), mkWorld s tr (c0, conn)).
Proof.
  intros Hen Hp. unfold Base.on_class. cbn [ext trace cls fst snd].
  by rewrite (pool_existing self (mkWorld s tr c0) p Hen Hp).
Qed.

Lemma on_class_self_pool_existing self s tr c0 (conn : option Conn) p :
  pooling_enabled self →
  Base._connection_pools c0 !! Base.alias self = Some p →
  Base.on_class (E:=E) (Base.self_pool self) (mkWorld s tr (c0, conn))
  = (Ok p, mkWorld s tr (c0, conn)).
Proof.
  intros Hen Hp. unfold Base.on_class. cbn [ext trace cls fst snd].
  by rewrite (self_pool_existing self (mkWorld s tr c0) p Hen Hp).
Qed.

(** The [except] branch of [close], with the connection still set. *)
Lemma close_handler_run e s tr c0 (c : Conn) :
  ∃ s' evs,
    (logging ERROR (ReturnFailed e) ;;
     try_except
       (conn <- Base.get_connection ;;
        match conn with
        | Some conn =>
            closed <- connection_closed conn ;;
            if closed : bool then ret tt else connection_close conn
        | None => ret tt
        end)
       (fun _ => ret tt) ;;
     Base.set_connection None) (mkWorld (E:=E) s tr (c0, Some c))
    = (Ok tt, mkWorld s' (tr ++ EvLog ERROR (ReturnFailed e) :: evs) (c0, None)) ∧
    forced_close c evs.
Proof.
  unfold bind at 1, logging at 1. unfold bind at 1, try_except at 1.
  unfold bind at 1, Base.get_connection at 1, bind at 1, get_cls at 1, ret at 1.
  cbn [ext trace cls emit fst snd].
  unfold bind at 1, connection_closed at 1. cbn [ext trace cls emit].
  destruct (conn_closed E c s) as [[|]|] eqn:Hflag; unfold emit; cbn [ext trace cls fst snd].
  - exists s, [EvClosed c (Some true)]. unfold ret, Base.set_connection, modify_cls.
    cbn [ext trace cls fst snd emit]. rewrite <- app_assoc. split; [reflexivity|].
    by apply (forced_skipped c (Some true)).
  - unfold connection_close, call. cbn [ext trace cls fst snd emit].
    destruct (conn_close E c s) as [r s']. exists s', [EvClosed c (Some false); EvConnClose c r].
    split; [|apply forced_done].
    destruct r as [[]|e']; unfold ret, Base.set_connection, modify_cls;
      cbn [ext trace cls fst snd emit]; rewrite <- !app_assoc; reflexivity.
  - exists s, [EvClosed c None]. unfold ret, Base.set_connection, modify_cls.
    cbn [ext trace cls fst snd emit]. rewrite <- app_assoc. split; [reflexivity|].
    by apply (forced_skipped c None).
Qed.

(** [close] with a connection set and a pool registered. *)
Lemma close_pool_path_run self s tr c0 (c : Conn) p :
  pooling_enabled self →
  Base._connection_pools c0 !! Base.alias self = Some p →
  ∃ s' evs,
    Base.close (E:=E) self (mkWorld s tr (c0, Some c))
    = (Ok tt, mkWorld s' (tr ++ evs) (c0, None)) ∧
    close_protocol p c evs.
Proof.
  intros Hen Hp. unfold Base.close.
  unfold bind at 1, Base.get_connection at 1, bind at 1, get_cls at 1, ret at 1.
  cbn [ext trace cls fst snd].
  unfold bind at 1, bind at 1. rewrite (on_class_pool_existing self s tr c0 (Some c) p Hen Hp).
  unfold ret at 1. cbn [bool_decide decide_rel]. rewrite bool_decide_eq_false_2 by done.
  unfold try_except at 1.
  unfold bind at 1, Base.self_connection at 1, bind at 1, Base.get_connection at 1,
    bind at 1, get_cls at 1, ret at 1, ret at 1.
  cbn [ext trace cls fst snd].
  unfold bind at 1, connection_closed at 1. cbn [ext trace cls emit].
  destruct (conn_closed E c s) as [[|]|] eqn:Hflag; unfold emit; cbn [ext trace cls fst snd].
  - exists s, [EvClosed c (Some true)]. split; [reflexivity|constructor].
  - unfold bind at 1.
    rewrite (on_class_self_pool_existing self s _ c0 (Some c) p Hen Hp).
    unfold bind at 1, Base.get_connection at 1, bind at 1, get_cls at 1, ret at 1.
    cbn [ext trace cls fst snd].
    unfold bind at 1, pool_putconn at 1, call at 1. cbn [ext trace cls fst snd emit].
    destruct (putconn E p c false s) as [[[]|e] s1].
    + exists s1, [EvClosed c (Some false); EvPutconn p c false (Ok tt)].
      unfold Base.set_connection, modify_cls. cbn [ext trace cls fst snd emit].
      rewrite <- app_assoc. split; [reflexivity|constructor].
    + destruct (close_handler_run e s1
                  ((tr ++ [EvClosed c (Some false)]) ++ [EvPutconn p c false (Raise e)]) c0 c)
        as (s' & evs & Hrun & Hforced).
      rewrite Hrun. exists s', (EvClosed c (Some false) :: EvPutconn p c false (Raise e)
                                 :: EvLog ERROR (ReturnFailed e) :: evs).
      rewrite <- !app_assoc. split; [reflexivity|]. by constructor.
  - destruct (close_handler_run (AttributeError "closed") s (tr ++ [EvClosed c None]) c0 c)
      as (s' & evs & Hrun & Hforced).
    rewrite Hrun. exists s', (EvClosed c None
                               :: EvLog ERROR (ReturnFailed (AttributeError "closed")) :: evs).
    rewrite <- !app_assoc. split; [reflexivity|]. by constructor.
Qed.
End ClosePath.

(** X10. On its pool path (a connection is set, pooling is on and a pool is
    registered), [close] of [base.py] follows one of four courses: the
    connection is found closed and nothing else is called, so that a closed
    connection is never given back to the pool; or it is given back once,
    with [close=False]; or the [closed] attribute is missing; or [putconn]
    raises. In the last two the error is logged and the connection is
    closed directly unless it is found closed by then. The class attributes
    are not changed and [self.connection] ends as [None]. *)
Theorem close_follows_protocol (E : External) (self : Base.Wrapper)
    (w : World E (Base.Class * option Conn)) (c : Conn) (p : PoolRef) :
  snd (cls w) = Some c →
  pooling_enabled self →
  Base._connection_pools (fst (cls w)) !! Base.alias self = Some p →
  ∃ w' evs,
    Base.close self w = (Ok tt, w') ∧
    trace w' = (trace w ++ evs)%list ∧
    close_protocol p c evs ∧
    cls w' = (fst (cls w), None).
Proof.
  destruct w as [s tr [c0 conn]]. cbn [cls fst snd trace]. intros -> Hen Hp.
  destruct (close_pool_path_run self s tr c0 c p Hen Hp) as (s' & evs & Hrun & Hproto).
  eexists _, evs. split; [exact Hrun|]. by repeat split.
Qed.

Lemma close_follows_protocol_witness :
  let run := Base.close Examples.default_wrapper
               (Sim.start Examples.putconn_fails (Examples.one_pool, Some 5%nat)) in
  let closed := mkExn "PoolClosed" "the pool is closed" in
  trace (snd run) =
    [EvClosed 5%nat (Some false); EvPutconn 1%nat 5%nat false (Raise closed);
     EvLog ERROR (ReturnFailed closed);
     EvClosed 5%nat (Some false); EvConnClose 5%nat (Ok tt)].
Proof.
  destruct (close_follows_protocol Sim.env Examples.default_wrapper
              (Sim.start Examples.putconn_fails (Examples.one_pool, Some 5%nat)) 5%nat 1%nat)
    as (w' & evs & Hrun & Htr & _ & _).
  - reflexivity.
  - split; [discriminate | reflexivity].
  - reflexivity.
  - cbn zeta. rewrite Hrun. cbn [snd].
    apply (f_equal (λ x, trace (snd x))) in Hrun. cbn [snd] in Hrun. rewrite <- Hrun.
    vm_compute. reflexivity.
Defined.

(** X11. [close_if_unusable_or_obsolete], with a connection set, pooling on
    and a pool registered, and an [is_usable] that leaves the class
    attributes and [self.connection] alone: the method never raises; the
    connection is kept exactly when [is_usable] returns [True]; when it
    returns [False] or raises, the connection goes through [close] and
    [self.connection] ends as [None]. The class attributes are not
    changed. *)
Theorem close_if_unusable_outcomes (E : External)
    (is_usable : M E (Base.Class * option Conn) bool)
    (super_close_if_unusable_or_obsolete : M E (Base.Class * option Conn) unit)
    (self : Base.Wrapper) (w : World E (Base.Class * option Conn)) (c : Conn) (p : PoolRef) :
  snd (cls w) = Some c →
  pooling_enabled self →
  Base._connection_pools (fst (cls w)) !! Base.alias self = Some p →
  (∀ w0 r w1, is_usable w0 = (r, w1) → cls w1 = cls w0) →
  ∃ w',
    Base.close_if_unusable_or_obsolete is_usable super_close_if_unusable_or_obsolete self w
    = (Ok tt, w') ∧
    cls w' = (fst (cls w),
              match fst (is_usable w) with
              | Ok true => Some c
              | _ => None
              end).
Proof.
  destruct w as [s tr [c0 conn]]. cbn [cls fst snd trace]. intros -> Hen Hp Hframe.
  unfold Base.close_if_unusable_or_obsolete.
  unfold bind at 1, Base.get_connection at 1, bind at 1, get_cls at 1, ret at 1.
  cbn [ext trace cls fst snd].
  unfold bind at 1. rewrite (on_class_pool_existing self s tr c0 (Some c) p Hen Hp).
  unfold try_except at 1, bind at 1.
  destruct (is_usable (mkWorld s tr (c0, Some c))) as [r [s1 tr1 c1]] eqn:Husable.
  pose proof (Hframe _ _ _ Husable) as Hcls. cbn [cls] in Hcls. subst c1. cbn [fst].
  destruct r as [[|]|e].
  - eexists. split; reflexivity.
  - destruct (close_pool_path_run self s1 tr1 c0 c p Hen Hp) as (s' & evs & Hrun & _).
    rewrite Hrun. eexists. split; reflexivity.
  - destruct (close_pool_path_run self s1 tr1 c0 c p Hen Hp) as (s' & evs & Hrun & _).
    rewrite Hrun. eexists. split; reflexivity.
Qed.

Lemma probing_is_usable_frame w0 r w1 :
  Examples.probing_is_usable w0 = (r, w1) → cls w1 = cls w0.
Proof.
  destruct w0 as [s tr [c0 [c|]]];
    unfold Examples.probing_is_usable, bind, Base.get_connection, get_cls, ret,
      try_except, cursor_execute_select_1, call; cbn.
  - destruct (bool_decide (c ∈ Sim.dead s)); intros; by simplify_eq.
  - intros; by simplify_eq.
Qed.

Lemma close_if_unusable_outcomes_witness :
  let run := Base.close_if_unusable_or_obsolete Examples.probing_is_usable (ret tt)
               Examples.default_wrapper
               (Sim.start Examples.dead_but_open (Examples.one_pool, Some 5%nat)) in
  fst run = Ok tt ∧ snd (cls (snd run)) = None.
Proof.
  destruct (close_if_unusable_outcomes Sim.env Examples.probing_is_usable (ret tt)
              Examples.default_wrapper
              (Sim.start Examples.dead_but_open (Examples.one_pool, Some 5%nat)) 5%nat 1%nat)
    as (w' & Hrun & Hcls).
  - reflexivity.
  - split; [discriminate | reflexivity].
  - reflexivity.
  - apply probing_is_usable_frame.
  - cbn zeta. rewrite Hrun. cbn [fst snd]. split; [reflexivity|]. rewrite Hcls. reflexivity.
Defined.

(** ** One alias does not disturb another *)

Section Isolation.
Context {E : External}.
Variables (self : Base.Wrapper) (a : Alias) (v : option PoolRef).
Hypothesis other : Base.alias self ≠ a.

(** The registry entry of the alias [a] is [v]. *)
Let entry (c : Base.Class) : Prop := Base._connection_pools c !! a = v.

Ltac entry_side :=
  intros c Hc; unfold entry in *; cbn;
  first [ assumption
        | (rewrite lookup_insert_ne by exact other; assumption)
        | (rewrite lookup_delete_ne by exact other; assumption) ].

Ltac entry_step :=
  match goal with
  | |- keeps _ (modify_cls _) => apply keeps_modify_cls; entry_side
  | |- keeps _ Base.import_psycopg_pool => apply import_keeps
  | _ => keeps_step
  end.

Ltac entry_auto :=
  unfold super_get_new_connection, ConnectionPool, pool_getconn, pool_putconn,
    pool_close_all, pool_resize, pool_read, connection_close, cursor_execute_select_1;
  cbv zeta; repeat entry_step.

Lemma pool_keeps_entry : keeps (E:=E) entry (Base.pool self).
Proof using other. unfold Base.pool. entry_auto. Qed.

Lemma self_pool_keeps_entry : keeps (E:=E) entry (Base.self_pool self).
Proof using other. pose proof pool_keeps_entry. unfold Base.self_pool. entry_auto. Qed.

Lemma cleanup_keeps_entry : keeps (E:=E) entry (Base._cleanup_connections self).
Proof using other.
  pose proof pool_keeps_entry. unfold Base._cleanup_connections. entry_auto.
Qed.

Lemma getconn_validated_keeps_entry : keeps (E:=E) entry (Base.getconn_validated self).
Proof using other.
  pose proof self_pool_keeps_entry. unfold Base.getconn_validated. entry_auto.
Qed.

Lemma retry_keeps_entry budget params count d :
  keeps (E:=E) entry (Base.connect_with_retry budget params count d).
Proof using other.
  revert count d. induction budget as [|budget IH]; intros count d;
    rewrite connect_with_retry_unfold;
    (apply keeps_try_except; [entry_auto|intros e]);
    (destruct (transient e && _); [|apply keeps_raise]).
  - apply keeps_raise.
  - apply keeps_bind; [apply keeps_logging|intros _].
    apply keeps_bind; [apply keeps_time_sleep|intros _].
    apply IH.
Qed.

Lemma get_new_connection_keeps_entry params :
  keeps (E:=E) entry (Base.get_new_connection self params).
Proof using other.
  pose proof pool_keeps_entry. pose proof self_pool_keeps_entry.
  pose proof getconn_validated_keeps_entry. pose proof cleanup_keeps_entry.
  pose proof (retry_keeps_entry Base.max_retries params 0 (1 # 100)).
  unfold Base.get_new_connection. entry_auto.
Qed.

Lemma close_pool_keeps_entry : keeps (E:=E) entry (Base.close_pool self).
Proof using other. pose proof pool_keeps_entry. unfold Base.close_pool. entry_auto. Qed.

Lemma reset_pool_keeps_entry : keeps (E:=E) entry (Base.reset_pool self).
Proof using other.
  pose proof pool_keeps_entry. pose proof self_pool_keeps_entry.
  unfold Base.reset_pool. entry_auto.
Qed.

Lemma status_keeps_entry : keeps (E:=E) entry (Base.get_pool_status self).
Proof using other.
  pose proof pool_keeps_entry. pose proof self_pool_keeps_entry.
  unfold Base.get_pool_status, Base.py_div. entry_auto.
Qed.
End Isolation.

(** X12. The methods called on the wrapper of one alias never change the
    registry entry of another alias: a pool access, an acquisition with its
    emergency recovery, the cleanup, [close_pool], [reset_pool] and the
    status report leave the pool registered for every other alias (or its
    absence) as it was. *)
Theorem other_aliases_untouched (E : External) (self : Base.Wrapper) (a : Alias)
    (conn_params : Kwargs) (w : World E Base.Class) :
  Base.alias self ≠ a →
  let registered (w' : World E Base.Class) := Base._connection_pools (cls w') !! a in
  registered (snd (Base.pool self w)) = registered w ∧
  registered (snd (Base.get_new_connection self conn_params w)) = registered w ∧
  registered (snd (Base._cleanup_connections self w)) = registered w ∧
  registered (snd (Base.close_pool self w)) = registered w ∧
  registered (snd (Base.reset_pool self w)) = registered w ∧
  registered (snd (Base.get_pool_status self w)) = registered w.
Proof.
  intros Hother registered. unfold registered. repeat split.
  - by apply (pool_keeps_entry self a _ Hother w).
  - by apply (get_new_connection_keeps_entry self a _ Hother conn_params w).
  - by apply (cleanup_keeps_entry self a _ Hother w).
  - by apply (close_pool_keeps_entry self a _ Hother w).
  - by apply (reset_pool_keeps_entry self a _ Hother w).
  - by apply (status_keeps_entry self a _ Hother w).
Qed.

Lemma other_aliases_untouched_witness :
  Base._connection_pools
    (cls (snd (Base.close_pool Examples.default_wrapper Examples.two_aliases)))
    !! Some "replica" = Some 2%nat ∧
  Base._connection_pools
    (cls (snd (Base.close_pool Examples.default_wrapper Examples.two_aliases)))
    !! Some "default" = None.
Proof.
  assert (Hother : Base.alias Examples.default_wrapper ≠ Some "replica") by discriminate.
  pose proof (other_aliases_untouched Sim.env Examples.default_wrapper (Some "replica") ∅
                Examples.two_aliases Hother) as H.
  cbv zeta beta in H. destruct H as (_ & _ & _ & Hclose & _).
  split; [etrans; [exact Hclose|]|]; vm_compute; reflexivity.
Defined.

(** ** [utils/database_wrapper.py]: building and closing pools *)

Section SimplePools.
Context {E : External}.
Implicit Types (w : World E Simple.State).

Lemma close_loop_run items w :
  ∃ r w',
    for_each items (fun '(alias, pool_instance) => pool_close_all pool_instance) w = (r, w') ∧
    cls w' = cls w ∧
    match r with
    | Ok _ => trace w' = (trace w ++ all_closed items)%list
    | Raise e =>
        ∃ closed failed rest,
          items = (closed ++ failed :: rest)%list ∧
          trace w' = (trace w ++ all_closed closed ++ [EvPoolClose (snd failed) (Raise e)])%list
    end.
Proof.
  revert w. induction items as [|[a p] items IH]; intros w.
  - exists (Ok tt), w. cbn. by rewrite app_nil_r.
  - cbn [for_each]. unfold bind at 1. unfold pool_close_all at 1. unfold call at 1.
    destruct (pool_close E p (ext w)) as [[[]|e] s].
    + destruct (IH (mkWorld s (trace w ++ [EvPoolClose p (Ok tt)]) (cls w)))
        as (r & w' & Hrun & Hcls & Htr).
      exists r, w'. split; [exact Hrun|]. split; [exact Hcls|].
      destruct r as [[]|e].
      * rewrite Htr. cbn [trace all_closed map snd]. by rewrite <- app_assoc.
      * destruct Htr as (closed & failed & rest & -> & Htr).
        exists ((a, p) :: closed), failed, rest. split; [reflexivity|].
        rewrite Htr. cbn [trace all_closed map snd app]. by rewrite <- app_assoc.
    + eexists _, _. split; [reflexivity|]. cbn [cls trace]. split; [reflexivity|].
      by exists [], (a, p), items.
Qed.

(** With the alias registered, [get_new_connection] records the pool found
    and changes nothing else of the state. *)
Lemma simple_validated_keeps (self : Simple.Wrapper) params (c : Simple.State) :
  (∃ p, Simple._pools c !! Simple.alias self = Some p ∧ Simple.pool c = Some p) →
  keeps (E:=E) (λ c', c' = c) (Simple.get_new_connection self params).
Proof.
  intros (p & Hp & Hpool).
  unfold Simple.get_new_connection, Simple.lookup_or_create, Simple.self_pool.
  apply keeps_bind; [|intros _; keeps_auto].
  intros w Hw. unfold bind at 1, get_cls at 1. cbn [fst snd]. rewrite Hw, Hp.
  unfold bind at 1, ret at 1, bind at 1, get_cls at 1. cbn [cls]. rewrite Hw, Hp.
  unfold modify_cls. cbn [snd cls]. rewrite Hw. destruct c as [pools q]. cbn in *. by subst.
Qed.

(** A missing alias: the constructor is called, with the sizes of the
    wrapper. *)
Lemma lookup_or_create_missing (self : Simple.Wrapper) params w :
  Simple._pools (cls w) !! Simple.alias self = None →
  ∃ args,
    pa_kwargs args = params ∧
    pa_min_size args = Simple.min_connections self ∧
    pa_max_size args = (Simple.max_connections self + Simple.max_overflow self)%Q ∧
    Simple.lookup_or_create self params w =
      match new_pool E args (ext w) with
      | (Ok p, s) =>
          (Ok tt,
           mkWorld s (trace w ++ [EvPoolNew args (Ok p)])
             (Simple.mkState (<[Simple.alias self := p]> (Simple._pools (cls w))) (Some p)))
      | (Raise e, s) => (Raise e, mkWorld s (trace w ++ [EvPoolNew args (Raise e)]) (cls w))
      end.
Proof.
  intros Hmiss.
  exists (mkPoolArgs params (Simple.min_connections self)
            (Simple.max_connections self + Simple.max_overflow self)%Q
            None None false false ∅).
  split; [|split; [|split]]; cycle 3.
  - unfold Simple.lookup_or_create. unfold bind at 1, get_cls at 1. rewrite Hmiss.
    unfold bind at 1, bind at 1, ConnectionPool, call.
    destruct (new_pool E _ (ext w)) as [[p|e] s]; [|reflexivity].
    unfold modify_cls at 1. unfold bind, get_cls, modify_cls. cbn [cls ext trace Simple._pools].
    rewrite lookup_insert_eq. reflexivity.
  - reflexivity.
  - reflexivity.
  - reflexivity.
Qed.
End SimplePools.

(** X13. [close] of [database_wrapper.py] does nothing without a
    connection. With one, and with [self.pool] set, it gives the connection
    back to that pool once, not closing it, and clears [self.connection]
    exactly when the pool took it: when [putconn] fails the error leaves
    through [wrap_database_errors] and [self.connection] is still set.
    Without a pool the connection itself is closed, and [self.connection]
    stays set whatever the outcome. The registry and [self.pool] are never
    changed. *)
Theorem simple_close_outcomes (E : External) (translate : Exn → Exn)
    (w : World E (Simple.State * option Conn)) :
  let run := Simple.close translate w in
  (snd (cls w) = None → run = (Ok tt, w)) ∧
  ∀ connection, snd (cls w) = Some connection →
    fst (cls (snd run)) = fst (cls w) ∧
    match Simple.pool (fst (cls w)) with
    | Some p =>
        ∃ r, trace (snd run) = (trace w ++ [EvPutconn p connection false r])%list ∧
          match r with
          | Ok _ => fst run = Ok tt ∧ snd (cls (snd run)) = None
          | Raise e => fst run = Raise (translate e) ∧ snd (cls (snd run)) = Some connection
          end
    | None =>
        ∃ r, trace (snd run) = (trace w ++ [EvConnClose connection r])%list ∧
          snd (cls (snd run)) = Some connection ∧
          fst run = match r with Ok _ => Ok tt | Raise e => Raise (translate e) end
    end.
Proof.
  cbv zeta. unfold Simple.close, bind, get_cls. split.
  - intros Hnone. by rewrite Hnone.
  - intros connection Hconn. rewrite Hconn. unfold try_except.
    destruct (Simple.pool (fst (cls w))) as [p|].
    + unfold pool_putconn, call, modify_cls, raise.
      destruct (putconn E p connection false (ext w)) as [[[]|e] s]; cbn [fst snd cls trace].
      * split; [reflexivity|]. by exists (Ok tt).
      * split; [reflexivity|]. by exists (Raise e).
    + unfold connection_close, call, raise.
      destruct (conn_close E connection (ext w)) as [[[]|e] s]; cbn [fst snd cls trace].
      * split; [reflexivity|]. by exists (Ok tt).
      * split; [reflexivity|]. by exists (Raise e).
Qed.

Lemma simple_close_outcomes_witness :
  let w := Sim.start Examples.putconn_refused (Examples.simple_one_pool, Some 5%nat) in
  let w' := Sim.start Examples.putconn_refused
              (Simple.mkState (Simple._pools Examples.simple_one_pool) (Some 1%nat),
               Some 5%nat) in
  fst (Simple.close Examples.wrap_database_errors w) = Ok tt ∧
  cls (snd (Simple.close Examples.wrap_database_errors w)) =
    (Examples.simple_one_pool, Some 5%nat) ∧
  fst (Simple.close Examples.wrap_database_errors w') =
    Raise (mkExn "django.db.utils.Error" "trying to put unkeyed connection") ∧
  snd (cls (snd (Simple.close Examples.wrap_database_errors w'))) = Some 5%nat.
Proof.
  intros w w'.
  destruct (simple_close_outcomes Sim.env Examples.wrap_database_errors w) as [_ Hw].
  destruct (simple_close_outcomes Sim.env Examples.wrap_database_errors w') as [_ Hw'].
  specialize (Hw 5%nat eq_refl) as [Hst (r & Htr & Hcl & Hres)].
  specialize (Hw' 5%nat eq_refl) as [Hst' (r' & Htr' & Hres')].
  cbv zeta in *.
  assert (Hr : r = Ok tt).
  { apply (f_equal (λ evs, match last evs with
                           | Some (EvConnClose _ r) => r
                           | _ => Raise Sim.refused
                           end)) in Htr.
    rewrite last_snoc in Htr. rewrite <- Htr. vm_compute. reflexivity. }
  assert (Hr' : r' = Raise (mkExn "PoolError" "trying to put unkeyed connection")).
  { apply (f_equal (λ evs, match last evs with
                           | Some (EvPutconn _ _ _ r) => r
                           | _ => Raise Sim.refused
                           end)) in Htr'.
    rewrite last_snoc in Htr'. rewrite <- Htr'. vm_compute. reflexivity. }
  subst r r'. destruct Hres' as [Hres' Hcl'].
  split; [exact Hres|]. split.
  - destruct (cls (snd (Simple.close Examples.wrap_database_errors w))) as [st c].
    cbn [fst snd] in Hst, Hcl. by rewrite Hst, Hcl.
  - split; [exact Hres'|exact Hcl'].
Defined.

(** X14. [close_all_pools] closes the pools in the order the registry
    gives them. When every [closeall] returns, each registered pool has been
    closed exactly once and the registry is empty. When one fails, the error
    propagates at once: the pools after it are not closed and the registry
    is left as it was, the pools already closed included. In both cases
    [self.pool] of a wrapper is not touched, so it may go on referring to a
    closed pool. *)
Theorem close_all_pools_outcomes (E : External) (items : list (Alias * PoolRef))
    (w : World E Simple.State) :
  items ≡ₚ map_to_list (Simple._pools (cls w)) →
  let run := Simple.close_all_pools items w in
  Simple.pool (cls (snd run)) = Simple.pool (cls w) ∧
  match fst run with
  | Ok _ =>
      Simple._pools (cls (snd run)) = ∅ ∧
      trace (snd run) = (trace w ++ all_closed items)%list ∧
      length (all_closed items) = size (Simple._pools (cls w)) ∧
      ∀ a p, Simple._pools (cls w) !! a = Some p → EvPoolClose p (Ok tt) ∈ all_closed items
  | Raise e =>
      Simple._pools (cls (snd run)) = Simple._pools (cls w) ∧
      ∃ closed failed rest,
        items = (closed ++ failed :: rest)%list ∧
        trace (snd run) =
          (trace w ++ all_closed closed ++ [EvPoolClose (snd failed) (Raise e)])%list
  end.
Proof.
  intros Hitems. cbv zeta. unfold Simple.close_all_pools, bind.
  destruct (close_loop_run items w) as (r & w1 & Hrun & Hcls & Htr). rewrite Hrun.
  destruct r as [[]|e]; cbn [fst snd cls modify_cls Simple.pool Simple._pools].
  - unfold modify_cls. cbn [fst snd cls Simple.pool Simple._pools]. rewrite Hcls.
    split; [reflexivity|]. split; [reflexivity|]. split; [exact Htr|]. split.
    + unfold all_closed. rewrite length_map, Hitems. apply length_map_to_list.
    + intros a p Hp. unfold all_closed.
      apply (list_elem_of_fmap_2 (λ item, EvPoolClose (snd item) (Ok tt)) items (a, p)).
      rewrite Hitems. by apply elem_of_map_to_list.
  - rewrite Hcls. split; [reflexivity|]. split; [reflexivity|]. exact Htr.
Qed.

Lemma close_all_pools_outcomes_witness :
  cls Examples.simple_after_close_all = Simple.mkState ∅ (Some 1%nat) ∧
  trace Examples.simple_after_close_all =
    (trace Examples.simple_connected ++ [EvPoolClose 1%nat (Ok tt)])%list.
Proof.
  assert (Hitems : map_to_list (Simple._pools (cls Examples.simple_connected))
                   ≡ₚ map_to_list (Simple._pools (cls Examples.simple_connected)))
    by reflexivity.
  pose proof (close_all_pools_outcomes Sim.env _ Examples.simple_connected Hitems) as H.
  cbv zeta in H. fold Examples.simple_after_close_all in H.
  assert (Hok : fst (Simple.close_all_pools
                       (map_to_list (Simple._pools (cls Examples.simple_connected)))
                       Examples.simple_connected) = Ok tt) by (vm_compute; reflexivity).
  rewrite Hok in H. destruct H as (Hpool & Hreg & Htr & _).
  split.
  - destruct (cls Examples.simple_after_close_all) as [pools q]. cbn in Hpool, Hreg.
    rewrite Hreg, Hpool. vm_compute. reflexivity.
  - rewrite Htr. vm_compute. reflexivity.
Defined.

(** X15. [get_new_connection] of [database_wrapper.py] for an alias that
    has no pool calls the pool constructor first, once, with
    [minconn = min_connections], [maxconn = max_connections + max_overflow]
    and the connection parameters. If the constructor fails, its error is
    the outcome, nothing is registered and no connection is asked for. If
    it returns a pool, that pool is registered under the alias and recorded
    in [self.pool], the other entries of the registry are kept, and the
    connection is taken from the new pool by the probe protocol. *)
Theorem simple_pool_built_on_demand (E : External) (self : Simple.Wrapper)
    (conn_params : Kwargs) (w : World E Simple.State) :
  Simple._pools (cls w) !! Simple.alias self = None →
  ∃ args built evs,
    pa_kwargs args = conn_params ∧
    pa_min_size args = Simple.min_connections self ∧
    pa_max_size args = (Simple.max_connections self + Simple.max_overflow self)%Q ∧
    let run := Simple.get_new_connection self conn_params w in
    trace (snd run) = (trace w ++ EvPoolNew args built :: evs)%list ∧
    match built with
    | Ok p =>
        cls (snd run) =
          Simple.mkState (<[Simple.alias self := p]> (Simple._pools (cls w))) (Some p) ∧
        probe_protocol p evs (fst run)
    | Raise e => fst run = Raise e ∧ evs = [] ∧ cls (snd run) = cls w
    end.
Proof.
  intros Hmiss.
  destruct (lookup_or_create_missing self conn_params w Hmiss)
    as (args & Hkw & Hmin & Hmax & Hlookup).
  exists args. destruct (new_pool E args (ext w)) as [[p|e] s] eqn:Hnew.
  - set (w1 := mkWorld s (trace w ++ [EvPoolNew args (Ok p)])
                 (Simple.mkState (<[Simple.alias self := p]> (Simple._pools (cls w)))
                    (Some p))) in *.
    assert (Hp : Simple._pools (cls w1) !! Simple.alias self = Some p)
      by (cbn; apply lookup_insert_eq).
    assert (Hsame : Simple.get_new_connection self conn_params w =
                    Simple.get_new_connection self conn_params w1).
    { unfold Simple.get_new_connection.
      rewrite (bind_ok _ _ _ _ _ Hlookup).
      by rewrite (bind_ok _ _ _ _ _ (lookup_or_create_existing self conn_params w1 p Hp)). }
    destruct (simple_get_new_connection_probes self conn_params w1 p Hp)
      as (r & w' & evs & Hrun & Htr & Hprobe).
    exists (Ok p), evs. split; [exact Hkw|]. split; [exact Hmin|]. split; [exact Hmax|].
    cbv zeta. rewrite Hsame.
    pose proof (simple_validated_keeps self conn_params (cls w1)
                  (ex_intro _ p (conj Hp eq_refl)) w1 eq_refl) as Hkeep.
    rewrite Hrun in *. cbn [fst snd] in *. rewrite Htr. cbn [trace w1].
    rewrite <- app_assoc. split; [reflexivity|]. split; [exact Hkeep|exact Hprobe].
  - exists (Raise e), []. split; [exact Hkw|]. split; [exact Hmin|]. split; [exact Hmax|].
    cbv zeta. unfold Simple.get_new_connection.
    rewrite (bind_raise _ _ _ _ _ Hlookup). by cbn.
Qed.

Lemma simple_pool_built_on_demand_witness :
  ∃ evs,
    trace (snd (Simple.get_new_connection Examples.simple_wrapper ∅
                  Examples.simple_after_close_all)) =
      (trace Examples.simple_after_close_all ++ evs)%list ∧
    head evs =
      Some (EvPoolNew (mkPoolArgs ∅ 1 (10 + 5) None None false false ∅) (Ok 2%nat)).
Proof.
  assert (Hmiss : Simple._pools (cls Examples.simple_after_close_all)
                    !! Simple.alias Examples.simple_wrapper = None)
    by (vm_compute; reflexivity).
  destruct (simple_pool_built_on_demand Sim.env Examples.simple_wrapper ∅
              Examples.simple_after_close_all Hmiss)
    as (args & built & evs & _ & _ & _ & Htr & _).
  exists (EvPoolNew args built :: evs). split; [exact Htr|].
  cbn [head]. f_equal.
  apply (f_equal (λ l, nth (length (trace Examples.simple_after_close_all)) l EvThreadStart))
    in Htr.
  rewrite app_nth2 in Htr by lia. rewrite Nat.sub_diag in Htr. cbn [nth] in Htr.
  rewrite <- Htr. vm_compute. reflexivity.
Defined.


(** ** [get_pool_status] is a read *)

Section ReadOnly.
Context {E : External}.
Variables (self : Base.Wrapper) (p : PoolRef) (s0 : Ext E) (c0 : Base.Class).
Hypothesis enabled : pooling_enabled self.
Hypothesis registered : Base._connection_pools c0 !! Base.alias self = Some p.

Lemma reads_only_ret {A} (a : A) : reads_only s0 c0 (ret a).
Proof using Type. intros w Hs Hc. exists []. by rewrite app_nil_r. Qed.

Lemma reads_only_raise {A} e : reads_only (A:=A) s0 c0 (raise e).
Proof using Type. intros w Hs Hc. exists []. by rewrite app_nil_r. Qed.

Lemma reads_only_get_cls : reads_only s0 c0 get_cls.
Proof using Type. intros w Hs Hc. exists []. by rewrite app_nil_r. Qed.

Lemma reads_only_bind {A B} (m : M E Base.Class A) (k : A → M E Base.Class B) :
  reads_only s0 c0 m → (∀ a, reads_only s0 c0 (k a)) → reads_only s0 c0 (bind m k).
Proof using Type.
  intros Hm Hk w Hs Hc. destruct (Hm w Hs Hc) as (evs & Htr & Hall & Hs1 & Hc1).
  unfold bind. destruct (m w) as [[a|e] w1]; cbn [snd] in *.
  - destruct (Hk a w1 Hs1 Hc1) as (evs' & Htr' & Hall' & Hs2 & Hc2).
    exists (evs ++ evs')%list. rewrite Htr', Htr, <- app_assoc, forallb_app, Hall, Hall'.
    by repeat split.
  - by exists evs.
Qed.

Lemma reads_only_pool : reads_only s0 c0 (Base.pool self).
Proof using enabled registered.
  intros w Hs Hc. rewrite (pool_existing self w p enabled) by (by rewrite Hc).
  exists []. by rewrite app_nil_r.
Qed.

Lemma reads_only_self_pool : reads_only s0 c0 (Base.self_pool self).
Proof using enabled registered.
  intros w Hs Hc. rewrite (self_pool_existing self w p enabled) by (by rewrite Hc).
  exists []. by rewrite app_nil_r.
Qed.

Lemma reads_only_attribute name :
  reads_only s0 c0 (q <- Base.self_pool self ;; pool_read q name).
Proof using enabled registered.
  apply reads_only_bind; [apply reads_only_self_pool|intros q].
  intros w Hs Hc. by exists [EvAttr q name (pool_attr E q name (ext w))].
Qed.

Lemma reads_only_status : reads_only s0 c0 (Base.get_pool_status self).
Proof using enabled registered.
  unfold Base.get_pool_status.
  apply reads_only_bind; [apply reads_only_pool|intros [q|]]; [|apply reads_only_ret].
  repeat (apply reads_only_bind; [apply reads_only_attribute|intros ?]).
  apply reads_only_bind.
  - apply reads_only_bind; [apply reads_only_attribute|intros m].
    destruct (Qgtb m 0); [|apply reads_only_ret].
    repeat (apply reads_only_bind; [apply reads_only_attribute|intros ?]).
    apply reads_only_bind; [|intros ?; apply reads_only_ret].
    unfold Base.py_div. destruct (Qeq_bool _ _); [apply reads_only_raise|apply reads_only_ret].
  - intros ?. apply reads_only_bind; [apply reads_only_get_cls|intros ?]. apply reads_only_ret.
Qed.
End ReadOnly.

(** X16. A status query never takes or gives back a connection, never
    closes or resizes a pool, never sleeps and logs nothing: apart from a
    pool access (connection parameters, pool constructor, clock) it only
    reads pool attributes. For a wrapper with pooling on whose pool is
    registered it is a pure read, whatever the attribute reads return: it
    only reads attributes, and leaves the collaborators and the class
    attributes as they were, also when it raises. *)
Theorem status_only_reads (E : External) (self : Base.Wrapper) (w : World E Base.Class) :
  let run := Base.get_pool_status self w in
  (∃ evs, trace (snd run) = (trace w ++ evs)%list ∧ forallb builds_or_reads evs = true) ∧
  ∀ p, pooling_enabled self →
    Base._connection_pools (cls w) !! Base.alias self = Some p →
    ∃ evs,
      trace (snd run) = (trace w ++ evs)%list ∧
      forallb is_attr_read evs = true ∧
      ext (snd run) = ext w ∧ cls (snd run) = cls w.
Proof.
  cbv zeta. split.
  - assert (Hpool : emits (E:=E) builds_or_reads (Base.pool self))
      by (by apply pool_emits).
    pose proof (self_pool_emits _ _ Hpool) as Hself.
    assert (Hstatus : emits (E:=E) builds_or_reads (Base.get_pool_status self)).
    { unfold Base.get_pool_status, Base.py_div. emits_auto. }
    apply Hstatus.
  - intros p Hen Hp. by apply (reads_only_status self p (ext w) (cls w) Hen Hp w).
Qed.

Lemma status_only_reads_witness :
  ∃ evs,
    trace (snd (Base.get_pool_status Examples.default_wrapper
                  (Sim.start Sim.quiet Examples.one_pool))) = evs ∧
    forallb is_attr_read evs = true ∧
    fst (Base.get_pool_status Examples.default_wrapper
           (Sim.start Sim.quiet Examples.one_pool)) = Raise (AttributeError "size").
Proof.
  destruct (status_only_reads Sim.env Examples.default_wrapper
              (Sim.start Sim.quiet Examples.one_pool)) as [_ H].
  destruct (H 1%nat) as (evs & Htr & Hall & _).
  - split; [discriminate|reflexivity].
  - reflexivity.
  - exists evs. split; [exact Htr|]. split; [exact Hall|]. vm_compute. reflexivity.
Defined.
